(** * WaveLogStoat: the message parsing and normalization pipeline

    A shallow embedding of the Go sources of the repository
    (parser, normalizer and the dispatch logic of [main.go]) together with
    the fragment of the Go standard library they call, and the theorems
    that settle the claims of the specification against that embedding.

    Conventions.
    - A Go [string] is a sequence of bytes: it is a Rocq [string], whose
      characters are the bytes.
    - A Go [int] is a 64-bit two's complement integer: it is a [Z] and the
      wrap-around of [+] is written out ([Int.add]).
    - A Go [float64] is an IEEE 754 binary64 value: it is a [spec_float]
      with precision 53 and maximal exponent 1024.
    - A Go function that can fail returns a [result]; a run-time panic is
      an outcome of its own. *)

From Stdlib Require Import Bool Arith ZArith List Lia.
From Stdlib Require Import Strings.Ascii Strings.String.
From Stdlib Require Import Numbers.DecimalString.
From Stdlib Require Import Floats.SpecFloat.
Import ListNotations.

Local Open Scope string_scope.
Local Open Scope Z_scope.

(* ================================================================== *)
(** * Outcomes of Go calls *)

(** The error values the pipeline builds with [fmt.Errorf]; the text of
    the wrapped library error is not modelled. *)
Inductive parseError : Type :=
| XMLParsingFailed          (* "XML parsing failed: %v" *)
| TimestampParsingFailed    (* "timestamp parsing failed: %v" *)
| TXFrequencyParsingFailed  (* "TX frequency parsing failed: %v" *)
| RXFrequencyParsingFailed  (* "RX frequency parsing failed: %v" *)
| MissingCALL.              (* "missing required CALL field in ADIF" *)

(** [Ok v]: the call returns [v, nil]; [Err e]: it returns a non-nil error;
    [Panic]: the goroutine panics (here: slice bounds out of range). *)
Inductive result (A : Type) : Type :=
| Ok (v : A)
| Err (e : parseError)
| Panic.
Arguments Ok {A} v.
Arguments Err {A} e.
Arguments Panic {A}.

(* ================================================================== *)
(** * Go's [int] *)

Module Int.

Definition size : Z := 64.
Definition MaxInt : Z := 2 ^ (size - 1) - 1.
Definition MinInt : Z := - 2 ^ (size - 1).

(** Two's complement wrap-around of a mathematical integer. *)
Definition wrap (z : Z) : Z := (z + 2 ^ (size - 1)) mod 2 ^ size - 2 ^ (size - 1).

(** [a + b] on [int]. *)
Definition add (a b : Z) : Z := wrap (a + b).

End Int.

(* ================================================================== *)
(** * Bytes and the [strings] package *)

Module Strings.

Definition byte (n : nat) : ascii := ascii_of_nat n.
Definition code (c : ascii) : nat := nat_of_ascii c.

Definition inRange (lo hi : nat) (c : ascii) : bool :=
  (lo <=? code c)%nat && (code c <=? hi)%nat.

Definition isDigit (c : ascii) : bool := inRange 48 57 c.   (* '0'..'9' *)
Definition isUpper (c : ascii) : bool := inRange 65 90 c.   (* 'A'..'Z' *)
Definition isLower (c : ascii) : bool := inRange 97 122 c.  (* 'a'..'z' *)
Definition isASCIIByte (c : ascii) : bool := (code c <? 128)%nat.

(** [len(s)] as an [int]. *)
Definition len (s : string) : Z := Z.of_nat (String.length s).

Fixpoint rev (s : string) : string :=
  match s with
  | EmptyString => EmptyString
  | String c s' => rev s' ++ String c EmptyString
  end.

Fixpoint forallb (p : ascii -> bool) (s : string) : bool :=
  match s with
  | EmptyString => true
  | String c s' => p c && forallb p s'
  end.

Fixpoint map (f : ascii -> ascii) (s : string) : string :=
  match s with
  | EmptyString => EmptyString
  | String c s' => String (f c) (map f s')
  end.

Definition isASCII (s : string) : bool := forallb isASCIIByte s.

Definition lowerByte (c : ascii) : ascii :=
  if isUpper c then byte (code c + 32) else c.
Definition upperByte (c : ascii) : ascii :=
  if isLower c then byte (code c - 32) else c.

(** The ASCII fast paths of [strings.ToLower] and [strings.ToUpper]. *)
Definition asciiLower (s : string) : string := map lowerByte s.
Definition asciiUpper (s : string) : string := map upperByte s.

(** [s[from:]], for [from <= len(s)]. *)
Fixpoint drop (n : nat) (s : string) : string :=
  match n, s with
  | O, _ => s
  | S n', String _ s' => drop n' s'
  | S _, EmptyString => EmptyString
  end.

(** [s[:n]], for [n <= len(s)]. *)
Fixpoint take (n : nat) (s : string) : string :=
  match n, s with
  | S n', String c s' => String c (take n' s')
  | _, _ => EmptyString
  end.

(** [strings.Index(s, substr)]: the byte index of the first occurrence
    of [substr] in [s], or [-1]. *)
Fixpoint indexFrom (substr s : string) (i : Z) : Z :=
  if prefix substr s then i
  else match s with
       | EmptyString => -1
       | String _ s' => indexFrom substr s' (i + 1)
       end.

Definition Index (s substr : string) : Z := indexFrom substr s 0.

(** [strings.Contains(s, substr)] is [Index(s, substr) >= 0]. *)
Definition Contains (s substr : string) : bool := 0 <=? Index s substr.

(** [strings.Split(s, sep)] for a non-empty separator, as [genSplit]
    runs it: cut at the first occurrence of [sep], continue on the rest.
    Every round consumes at least one byte, so [length s] rounds are
    enough. *)
Fixpoint genSplit (fuel : nat) (s sep : string) : list string :=
  match fuel with
  | O => [s]
  | S fuel' =>
      let m := Index s sep in
      if m <? 0 then [s]
      else take (Z.to_nat m) s
           :: genSplit fuel' (drop (Z.to_nat m + String.length sep) s) sep
  end.

Definition Split (s sep : string) : list string :=
  genSplit (String.length s) s sep.

(** ** [strings.TrimSpace]

    White space is [unicode.IsSpace]: the ASCII bytes
    ['\t' '\n' '\v' '\f' '\r' ' '] and the code points U+0085, U+00A0,
    U+1680, U+2000..U+200A, U+2028, U+2029, U+202F, U+205F, U+3000 in
    their UTF-8 encoding.  UTF-8 is prefix free and an invalid byte
    decodes to U+FFFD (not a space), so trimming runes is trimming these
    byte sequences. *)
Definition asciiSpace (c : ascii) : bool :=
  inRange 9 13 c || (code c =? 32)%nat.

(** Two-byte spaces: C2 85 (U+0085), C2 A0 (U+00A0). *)
Definition space2 (c1 c2 : ascii) : bool :=
  (code c1 =? 194)%nat && ((code c2 =? 133)%nat || (code c2 =? 160)%nat).

(** Three-byte spaces: E1 9A 80; E2 80 80..8A, E2 80 A8, E2 80 A9,
    E2 80 AF; E2 81 9F; E3 80 80. *)
Definition space3 (c1 c2 c3 : ascii) : bool :=
  ((code c1 =? 225)%nat && (code c2 =? 154)%nat && (code c3 =? 128)%nat)
  || ((code c1 =? 226)%nat && (code c2 =? 128)%nat
      && (inRange 128 138 c3 || (code c3 =? 168)%nat
          || (code c3 =? 169)%nat || (code c3 =? 175)%nat))
  || ((code c1 =? 226)%nat && (code c2 =? 129)%nat && (code c3 =? 159)%nat)
  || ((code c1 =? 227)%nat && (code c2 =? 128)%nat && (code c3 =? 128)%nat).

(** [strings.TrimLeftFunc(s, unicode.IsSpace)]. *)
Fixpoint trimLeft (s : string) : string :=
  match s with
  | EmptyString => EmptyString
  | String c1 s1 =>
      if asciiSpace c1 then trimLeft s1
      else match s1 with
           | EmptyString => s
           | String c2 s2 =>
               if space2 c1 c2 then trimLeft s2
               else match s2 with
                    | EmptyString => s
                    | String c3 s3 =>
                        if space3 c1 c2 c3 then trimLeft s3 else s
                    end
           end
  end.

(** The same scan over the reversed string, where the bytes of a rune
    come last byte first. *)
Fixpoint trimLeftRev (s : string) : string :=
  match s with
  | EmptyString => EmptyString
  | String c1 s1 =>
      if asciiSpace c1 then trimLeftRev s1
      else match s1 with
           | EmptyString => s
           | String c2 s2 =>
               if space2 c2 c1 then trimLeftRev s2
               else match s2 with
                    | EmptyString => s
                    | String c3 s3 =>
                        if space3 c3 c2 c1 then trimLeftRev s3 else s
                    end
           end
  end.

(** [strings.TrimRightFunc(s, unicode.IsSpace)]. *)
Definition trimRight (s : string) : string := rev (trimLeftRev (rev s)).

Definition TrimSpace (s : string) : string := trimRight (trimLeft s).

(** [strconv.Itoa] / the verb [%d] on a non-negative integer. *)
Definition itoa (z : Z) : string := NilZero.string_of_int (Z.to_int z).

End Strings.

(* ================================================================== *)
(** * Go's [float64] and the [math] package *)

Module Float64.

Definition prec : Z := 53.
Definition emax : Z := 1024.

Definition float64 : Type := spec_float.

(** The float64 nearest to the rational [n / d] (ties to even), with the
    sign [neg]; [0 <= n], [0 < d].  This is the rounding of IEEE 754
    division, run on integers of any size. *)
Definition ofRatio (neg : bool) (n d : Z) : float64 :=
  match n with
  | Z0 => S754_zero neg
  | _ => let '(mz, ez, lz) := SFdiv_core_binary prec emax n 0 d 0 in
         binary_round_aux prec emax neg mz ez lz
  end.

(** The float64 of an integer of magnitude below [2^53] (exact). *)
Definition ofZ (z : Z) : float64 := binary_normalize prec emax z 0 false.

Definition mul (x y : float64) : float64 := SFmul prec emax x y.
Definition div (x y : float64) : float64 := SFdiv prec emax x y.
Definition eqb (x y : float64) : bool := SFeqb x y.   (* x == y *)
Definition leb (x y : float64) : bool := SFleb x y.   (* x <= y *)
Definition geb (x y : float64) : bool := SFleb y x.   (* x >= y *)

Definition isFinite (x : float64) : bool :=
  match x with
  | S754_zero _ | S754_finite _ _ _ => true
  | _ => false
  end.

(** A decimal constant of the source text, [n / 10^k], converted to
    float64 as the Go compiler does (nearest, ties to even). *)
Definition const (n : Z) (k : Z) : float64 := ofRatio false n (10 ^ k).

(** [math.Floor]: the greatest integer value not above [x]; zeros,
    infinities and NaN are returned as they are. *)
Definition Floor (x : float64) : float64 :=
  match x with
  | S754_finite s m e =>
      if 0 <=? e then x
      else
        let q := Z.shiftr (Zpos m) (- e) in
        let exact := Zpos m =? Z.shiftl q (- e) in
        if s then (if exact then ofZ (- q) else ofZ (- (q + 1)))
        else match q with
             | Z0 => S754_zero false
             | _ => ofZ q
             end
  | _ => x
  end.

End Float64.

(* ================================================================== *)
(** * The [strconv] package *)

Module Strconv.
Import Strings Float64.

Definition digitVal (c : ascii) : Z := Z.of_nat (code c - 48).

(** ** [strconv.Atoi] *)

Fixpoint readInt (s : string) (acc : Z) : option Z :=
  match s with
  | EmptyString => Some acc
  | String c s' => if isDigit c then readInt s' (acc * 10 + digitVal c) else None
  end.

(** [Atoi(s)] is [ParseInt(s, 10, 0)]: an optional sign and one or more
    decimal digits; a value outside [int] is a range error.  [None] is
    any non-nil error. *)
Definition Atoi (s : string) : option Z :=
  let '(neg, body) :=
    match s with
    | String c s' =>
        if Ascii.eqb c "+" then (false, s')
        else if Ascii.eqb c "-" then (true, s')
        else (false, s)
    | EmptyString => (false, s)
    end in
  match body with
  | EmptyString => None
  | _ => match readInt body 0 with
         | None => None
         | Some n =>
             let v := if neg then - n else n in
             if (Int.MinInt <=? v) && (v <=? Int.MaxInt) then Some v else None
         end
  end.

(** ** [strconv.ParseFloat(s, 64)] *)

Definition lower (c : ascii) : ascii := byte (Nat.lor (code c) 32).  (* c | ('x' - 'X') *)

Fixpoint commonPrefixLenIgnoreCase (s pfx : string) : nat :=
  match s, pfx with
  | String c s', String p pfx' =>
      let c' := if isUpper c then byte (code c + 32) else c in
      if Ascii.eqb c' p then S (commonPrefixLenIgnoreCase s' pfx') else O
  | _, _ => O
  end.

(** [special]: the possibly signed [inf], [infinity] and the unsigned
    [nan], case ignored; returns the value and the bytes consumed. *)
Definition special (s : string) : option (float64 * nat) :=
  let inf (neg : bool) (nsign : nat) (t : string) :=
    let n := commonPrefixLenIgnoreCase t "infinity" in
    let n := if (3 <? n)%nat && (n <? 8)%nat then 3%nat else n in
    if (n =? 3)%nat || (n =? 8)%nat
    then Some (S754_infinity neg, (nsign + n)%nat) else None in
  match s with
  | EmptyString => None
  | String c s' =>
      if Ascii.eqb c "+" then inf false 1%nat s'
      else if Ascii.eqb c "-" then inf true 1%nat s'
      else if Ascii.eqb c "i" || Ascii.eqb c "I" then inf false 0%nat s
      else if Ascii.eqb c "n" || Ascii.eqb c "N" then
        if (commonPrefixLenIgnoreCase s "nan" =? 3)%nat
        then Some (S754_nan, 3%nat) else None
      else None
  end.

(** [underscoreOK]: underscores only between digits, or between a base
    prefix and a digit. *)
Fixpoint underscoreScan (hex : bool) (saw : ascii) (s : string) : bool :=
  match s with
  | EmptyString => negb (Ascii.eqb saw "_")
  | String c s' =>
      if isDigit c || (hex && inRange 97 102 (lower c))
      then underscoreScan hex "0" s'
      else if Ascii.eqb c "_"
           then (if Ascii.eqb saw "0" then underscoreScan hex "_" s' else false)
           else if Ascii.eqb saw "_" then false
                else underscoreScan hex "!" s'
  end.

Definition underscoreOK (s : string) : bool :=
  let s := match s with
           | String "+" s' => s'
           | String "-" s' => s'
           | _ => s
           end in
  match s with
  | String "0" (String c s') =>
      let l := lower c in
      if Ascii.eqb l "b" || Ascii.eqb l "o" || Ascii.eqb l "x"
      then underscoreScan (Ascii.eqb l "x") "0" s'
      else underscoreScan false "^" s
  | _ => underscoreScan false "^" s
  end.

(** The digit loop of [readFloat].  The mantissa is kept exactly ([mant],
    all digits) with the number [frac] of digits after the point, where
    the source keeps 19 digits, a truncation flag and the position of
    the point: the conversion that follows is correctly rounded on the
    exact value either way. *)
Record digits : Type := mkDigits {
  sawdigits : bool;
  underscores : bool;
  mant : Z;
  frac : Z;
  rest : string
}.

Fixpoint readDigits (hex sawdot sawdig us : bool) (m f : Z) (s : string) : digits :=
  match s with
  | EmptyString => mkDigits sawdig us m f s
  | String c s' =>
      if Ascii.eqb c "_" then readDigits hex sawdot sawdig true m f s'
      else if Ascii.eqb c "." then
        (if sawdot then mkDigits sawdig us m f s
         else readDigits hex true sawdig us m f s')
      else if isDigit c then
        readDigits hex sawdot true us
          (m * (if hex then 16 else 10) + digitVal c)
          (if sawdot then f + 1 else f) s'
      else if hex && inRange 97 102 (lower c) then
        readDigits hex sawdot true us
          (m * 16 + (Z.of_nat (code (lower c)) - 97 + 10))
          (if sawdot then f + 1 else f) s'
      else mkDigits sawdig us m f s
  end.

(** The exponent digits: [e] stops growing once it reaches 10000. *)
Fixpoint readExp (s : string) (e : Z) (us : bool) : Z * bool * string :=
  match s with
  | EmptyString => (e, us, s)
  | String c s' =>
      if Ascii.eqb c "_" then readExp s' e true
      else if isDigit c then
        readExp s' (if e <? 10000 then e * 10 + digitVal c else e) us
      else (e, us, s)
  end.

(** What [readFloat] returns when [ok]: sign, base, exact mantissa, the
    exponent of the base ([10] or [2]) and the unread rest. *)
Record number : Type := mkNumber {
  neg : bool;
  hex : bool;
  mantissa : Z;
  exp : Z;
  unread : string
}.

Definition readFloat (s : string) : option number :=
  match s with
  | EmptyString => None
  | _ =>
    let '(ng, s1) :=
      match s with
      | String "+" s' => (false, s')
      | String "-" s' => (true, s')
      | _ => (false, s)
      end in
    let '(hx, s2) :=
      match s1 with
      | String "0" (String x (String c s')) =>
          if Ascii.eqb (lower x) "x" then (true, String c s') else (false, s1)
      | _ => (false, s1)
      end in
    let d := readDigits hx false false false 0 0 s2 in
    if negb (sawdigits d) then None
    else
      let dp := if hx then -4 * frac d else - frac d in
      let finish (e : Z) (us : bool) (r : string) :=
        let consumed := take (String.length s - String.length r) s in
        if us && negb (underscoreOK consumed) then None
        else Some (mkNumber ng hx (mant d) (dp + e) r) in
      match rest d with
      | String c r =>
          if Ascii.eqb (lower c) (if hx then "p" else "e")%char then
            match r with
            | EmptyString => None
            | String c1 r1 =>
                let '(esign, r2) :=
                  if Ascii.eqb c1 "+" then (1, r1)
                  else if Ascii.eqb c1 "-" then (-1, r1)
                  else (1, r) in
                match r2 with
                | EmptyString => None
                | String c2 _ =>
                    if negb (isDigit c2) then None
                    else let '(e, us, r3) := readExp r2 0 (underscores d) in
                         finish (e * esign) us r3
                end
            end
          else if hx then None
          else finish 0 (underscores d) (rest d)
      | EmptyString =>
          if hx then None else finish 0 (underscores d) (rest d)
      end
  end.

(** The value [mantissa * base^exp] rounded to float64. *)
Definition numberValue (n : number) : float64 :=
  let b := if hex n then 2 else 10 in
  if mantissa n =? 0 then S754_zero (neg n)
  else if 0 <=? exp n then ofRatio (neg n) (mantissa n * b ^ exp n) 1
  else ofRatio (neg n) (mantissa n) (b ^ (- exp n)).

(** [ParseFloat(s, 64)]: [None] is any non-nil error, a syntax error
    (also when bytes are left unread) or a range error (the rounded
    value is an infinity). *)
Definition ParseFloat (s : string) : option float64 :=
  match special s with
  | Some (v, n) => if (n =? String.length s)%nat then Some v else None
  | None =>
      match readFloat s with
      | None => None
      | Some n =>
          match unread n with
          | EmptyString =>
              let f := numberValue n in
              if isFinite f then Some f else None
          | _ => None
          end
      end
  end.

End Strconv.

(* ================================================================== *)
(** * The [fmt] package: the verbs used by the pipeline *)

Module Fmt.
Import Strings Float64.

Fixpoint zeros (n : nat) : string :=
  match n with
  | O => EmptyString
  | S n' => String "0" (zeros n')
  end.

(** [n / d] rounded to the nearest integer, ties to even. *)
Definition roundHalfEven (n d : Z) : Z :=
  let q := n / d in
  let r := n mod d in
  match 2 * r ?= d with
  | Lt => q
  | Gt => q + 1
  | Eq => if Z.even q then q else q + 1
  end.

(** The last [w] decimal digits of [z], zero padded. *)
Fixpoint fixedWidth (w : nat) (z : Z) : string :=
  match w with
  | O => EmptyString
  | S w' => fixedWidth w' (z / 10) ++ String (byte (48 + Z.to_nat (z mod 10))) EmptyString
  end.

(** The digits of [r / 10^p] with [p] decimal places; no point when
    [p] is zero. *)
Definition fixedDigits (p : nat) (r : Z) : string :=
  let scale := 10 ^ Z.of_nat p in
  match p with
  | O => itoa r
  | _ => itoa (r / scale) ++ "." ++ fixedWidth p (r mod scale)
  end.

(** [fmt.Sprintf("%.<p>f", x)]: the exact binary value of [x] in
    decimal, rounded to [p] places (ties to even). *)
Definition Sprintf_f (p : nat) (x : float64) : string :=
  match x with
  | S754_nan => "NaN"
  | S754_infinity false => "+Inf"
  | S754_infinity true => "-Inf"
  | S754_zero s => (if s then "-" else "") ++ fixedDigits p 0
  | S754_finite s m e =>
      let scale := 10 ^ Z.of_nat p in
      let r := if 0 <=? e then Zpos m * 2 ^ e * scale
               else roundHalfEven (Zpos m * scale) (2 ^ (- e)) in
      (if s then "-" else "") ++ fixedDigits p r
  end.

(** [fmt.Sprintf("<%s:%d>%s ", name, len(value), value)], the shape of
    every field written by the serializer. *)
Definition Sprintf_tag (name value : string) : string :=
  "<" ++ name ++ ":" ++ itoa (len value) ++ ">" ++ value ++ " ".

End Fmt.

(* ================================================================== *)
(** * The [regexp] package: the fragment the pipeline compiles *)

Module Regexp.
Import Strings.

(** The syntax of the two patterns of the program.  A repetition is
    always applied to a character class there, which makes the matcher
    structurally recursive.  All pattern characters are ASCII, and an
    ASCII byte is never part of a longer UTF-8 sequence, so matching
    bytes is matching runes. *)
Inductive regexp : Type :=
| Bol                              (* ^      *)
| Chr (c : ascii)                  (* a literal character *)
| Plus (p : ascii -> bool)         (* [..]+ , greedy *)
| Cat (r1 r2 : regexp)             (* r1 r2  *)
| Opt (r : regexp)                 (* (?:r)? , greedy *)
| Group (i : nat) (r : regexp).    (* ( r ) , the i-th capturing group *)

(** Capture [i] is the byte range [(start, end)] last recorded for it. *)
Definition captures : Type := list (nat * (nat * nat)).

Definition cont : Type := string -> nat -> captures -> option (nat * captures).

(** Backtracking match of [r] on the suffix [s] that starts at offset
    [pos], then the continuation [k]: the first success in the order of
    a backtracking search (leftmost-first), which is the match Go
    reports. *)
Fixpoint run (r : regexp) (s : string) (pos : nat) (cs : captures) (k : cont)
  {struct r} : option (nat * captures) :=
  match r with
  | Bol => if (pos =? 0)%nat then k s pos cs else None
  | Chr c =>
      match s with
      | String a s' => if Ascii.eqb a c then k s' (S pos) cs else None
      | EmptyString => None
      end
  | Plus p =>
      (fix more (s : string) (pos : nat) {struct s} : option (nat * captures) :=
         match s with
         | String a s' =>
             if p a then
               match more s' (S pos) with
               | Some m => Some m
               | None => k s' (S pos) cs
               end
             else None
         | EmptyString => None
         end) s pos
  | Cat r1 r2 => run r1 s pos cs (fun s' pos' cs' => run r2 s' pos' cs' k)
  | Opt r1 =>
      match run r1 s pos cs k with
      | Some m => Some m
      | None => k s pos cs
      end
  | Group i r1 =>
      run r1 s pos cs (fun s' pos' cs' => k s' pos' ((i, (pos, pos')) :: cs'))
  end.

(** A match of [r] that begins exactly at [pos]: its end and captures. *)
Definition matchAt (r : regexp) (s : string) (pos : nat) : option (nat * captures) :=
  run r s pos [] (fun _ e cs => Some (e, cs)).

(** The leftmost match at or after [pos]: its start, end and captures. *)
Fixpoint search (r : regexp) (s : string) (pos : nat) : option (nat * nat * captures) :=
  match matchAt r s pos with
  | Some (e, cs) => Some (pos, e, cs)
  | None =>
      match s with
      | String _ s' => search r s' (S pos)
      | EmptyString => None
      end
  end.

Fixpoint capture (i : nat) (cs : captures) : option (nat * nat) :=
  match cs with
  | [] => None
  | (j, be) :: cs' => if (i =? j)%nat then Some be else capture i cs'
  end.

(** The slice of strings of one match: the whole match, then the text
    of the groups [1..n] (empty for a group that did not take part). *)
Definition submatch (whole : string) (n : nat) (m : nat * nat * captures) : list string :=
  let '(b, e, cs) := m in
  substring b (e - b) whole
  :: List.map (fun i => match capture i cs with
                        | Some (gb, ge) => substring gb (ge - gb) whole
                        | None => EmptyString
                        end) (seq 1 n).

(** [re.FindStringSubmatch(s)]: [[]] stands for the nil slice. *)
Definition FindStringSubmatch (r : regexp) (n : nat) (s : string) : list string :=
  match search r s 0 with
  | Some m => submatch s n m
  | None => []
  end.

(** The loop of [re.FindAllStringSubmatch(s, -1)]: successive
    non-overlapping matches; an empty match next to the previous match
    is dropped and the search moves on (by one byte here; the patterns
    of the program match no empty string).  [s] is the suffix of [whole]
    at [pos]; every round moves [pos] forward. *)
Fixpoint allMatches (fuel : nat) (r : regexp) (n : nat) (whole s : string)
  (pos : nat) (prevMatchEnd : option nat) : list (list string) :=
  match fuel with
  | O => []
  | S fuel' =>
      match search r s pos with
      | None => []
      | Some (b, e, cs) =>
          if (e =? pos)%nat then
            let accept := match prevMatchEnd with
                          | Some p => negb (b =? p)%nat
                          | None => true
                          end in
            let others := match s with
                          | String _ s' => allMatches fuel' r n whole s' (S pos) (Some e)
                          | EmptyString => []
                          end in
            if accept then submatch whole n (b, e, cs) :: others else others
          else
            submatch whole n (b, e, cs)
            :: allMatches fuel' r n whole (drop (e - pos) s) e (Some e)
      end
  end.

Definition FindAllStringSubmatch (r : regexp) (n : nat) (s : string) : list (list string) :=
  allMatches (S (String.length s)) r n s s 0 None.

End Regexp.

(* ================================================================== *)
(** * The [time] package: the one layout the pipeline parses *)

Module Time.
Import Strings.

(** The fields of a parsed [time.Time] that the pipeline formats (UTC;
    the fraction of a second is parsed and not kept). *)
Record Time : Type := mkTime {
  year : Z; month : Z; day : Z; hour : Z; minute : Z; second : Z
}.

Definition digitVal (c : ascii) : Z := Z.of_nat (code c - 48).

(** [getnum(s, fixed)]: one or two digits, exactly two when [fixed]. *)
Definition getnum (s : string) (fixed : bool) : option (Z * string) :=
  match s with
  | String a (String b s') =>
      if isDigit a then
        if isDigit b then Some (digitVal a * 10 + digitVal b, s')
        else if fixed then None else Some (digitVal a, String b s')
      else None
  | String a EmptyString =>
      if isDigit a then (if fixed then None else Some (digitVal a, EmptyString))
      else None
  | EmptyString => None
  end.

(** [skip(value, prefix)] for a one-character prefix that is no space. *)
Definition skip (value : string) (c : ascii) : option string :=
  match value with
  | String a s' => if Ascii.eqb a c then Some s' else None
  | EmptyString => None
  end.

(** The four digits of [stdLongYear]. *)
Definition getyear (s : string) : option (Z * string) :=
  match s with
  | String a (String b (String c (String d s'))) =>
      if isDigit a && isDigit b && isDigit c && isDigit d
      then Some (((digitVal a * 10 + digitVal b) * 10 + digitVal c) * 10 + digitVal d, s')
      else None
  | _ => None
  end.

Fixpoint skipDigits (s : string) : string :=
  match s with
  | String a s' => if isDigit a then skipDigits s' else s
  | EmptyString => s
  end.

(** A fractional second after the seconds field is accepted although
    the layout has none: a period or comma and at least one digit. *)
Definition skipFraction (s : string) : string :=
  match s with
  | String a (String b s') =>
      if (Ascii.eqb a "." || Ascii.eqb a ",") && isDigit b then skipDigits s' else s
  | _ => s
  end.

Definition isLeap (y : Z) : bool :=
  (y mod 4 =? 0) && (negb (y mod 100 =? 0) || (y mod 400 =? 0)).

Definition daysIn (m y : Z) : Z :=
  if m =? 2 then (if isLeap y then 29 else 28)
  else if (m =? 4) || (m =? 6) || (m =? 9) || (m =? 11) then 30 else 31.

Definition bind {A B : Type} (x : option A) (f : A -> option B) : option B :=
  match x with
  | Some a => f a
  | None => None
  end.

Notation "'let?' p ':=' x 'in' k" := (bind x (fun p => k))
  (at level 10, p pattern, x at level 100, k at level 200).

(** [time.Parse("2006-01-02T15:04:05", value)]; [None] is any error. *)
Definition Parse (value : string) : option Time :=
  let? (y, v) := getyear value in
  let? v := skip v "-" in
  let? (mo, v) := getnum v true in
  if (mo <=? 0) || (12 <? mo) then None else
  let? v := skip v "-" in
  let? (d, v) := getnum v true in
  let? v := skip v "T" in
  let? (h, v) := getnum v false in
  if 24 <=? h then None else
  let? v := skip v ":" in
  let? (mi, v) := getnum v true in
  if 60 <=? mi then None else
  let? v := skip v ":" in
  let? (s, v) := getnum v true in
  if 60 <=? s then None else
  match skipFraction v with
  | EmptyString =>
      if (d <? 1) || (daysIn mo y <? d) then None
      else Some (mkTime y mo d h mi s)
  | _ => None
  end.

(** A number zero-padded to [w] digits ([appendInt]). *)
Definition pad (w : nat) (z : Z) : string :=
  let ds := itoa z in
  Fmt.zeros (w - String.length ds) ++ ds.

(** [t.Format("20060102")] and [t.Format("150405")]. *)
Definition Format_20060102 (t : Time) : string :=
  pad 4 (year t) ++ pad 2 (month t) ++ pad 2 (day t).
Definition Format_150405 (t : Time) : string :=
  pad 2 (hour t) ++ pad 2 (minute t) ++ pad 2 (second t).

End Time.

(* ================================================================== *)
(** * The data model ([main.go]) *)

(** The string fields of [type QSO struct], in the order of the source.
    The struct's two other fields, [Created] and [Fail], are written by no
    function of the pipeline and are left out. *)
Inductive Field : Type :=
| CALL | MODE | QSO_DATE_OFF | QSO_DATE | TIME_OFF | TIME_ON
| RST_RCVD | RST_SENT | FREQ | FREQ_RX | OPERATOR | COMMENT | POWER
| STX | SRX | STX_STRING | SRX_STRING | RTX | MYCALL | GRIDSQUARE
| MY_GRIDSQUARE | STATION_CALLSIGN | BAND | NAME | QTH | STATE | COUNTRY
| CQZ | ITUZ | CONT | IOTA | DXCC | PROP_MODE | SAT_NAME | SAT_MODE
| CONTEST_ID | PREFIX
| SUBMODE | QSLMSG | NOTES | EMAIL | DARC_DOK | SOTA_REF | WWFF_REF
| POTA_REF | CNTY | REGION | LAT | LON | ANT_AZ | ANT_EL | ANT_PATH
| A_INDEX | K_INDEX | SFI | RX_PWR.

Scheme Equality for Field.

(** A [QSO] value gives every field its string; [qso.F] is [qso F]. *)
Definition QSO : Type := Field -> string.

(** [QSO{}]: every field is the empty string. *)
Definition emptyQSO : QSO := fun _ => EmptyString.

(** [qso.F = v]. *)
Definition set (f : Field) (v : string) (qso : QSO) : QSO :=
  fun g => if Field_beq g f then v else qso g.

(** A composite literal [QSO{F1: v1, ..., Fn: vn}]. *)
Definition literal (fields : list (Field * string)) : QSO :=
  fold_right (fun fv q => set (fst fv) (snd fv) q) emptyQSO fields.

(** [type WSJTContactInfo struct] (parser), without [XMLName]. *)
Record WSJTContactInfo : Type := mkContactInfo {
  Timestamp : string;
  Call : string;
  Mode : string;
  TxFreq : string;
  RxFreq : string;
  Rcv : string;
  Snt : string;
  Power : string;
  Operator : string;
  Comment : string;
  Sntnr : string;
  Rcvnr : string;
  MyCall : string;
  Gridsquare : string
}.

(** What the embedding takes from outside the sources: the Unicode case
    tables behind [strings.ToUpper] and [strings.ToLower] on a string
    that is not pure ASCII, the decoder [xml.Unmarshal] (its result for
    the schema of [WSJTContactInfo], [None] for an error), and the
    transport [sendToWaveLog] ([true] when it returns a nil error). *)
Class GoLibrary : Type := {
  unicode_ToUpper : string -> string;
  unicode_ToLower : string -> string;
  xml_Unmarshal : string -> option WSJTContactInfo;
  sendToWaveLog : string -> QSO -> bool
}.

Definition nl : string := String (Strings.byte 10) EmptyString.

(* ================================================================== *)
(** * The normalizer *)

Section Program.
Context {lib : GoLibrary}.
Import Strings Float64 Strconv Fmt Regexp.

(** [strings.ToUpper], [strings.ToLower]: byte-wise on an ASCII string,
    the Unicode mapping otherwise. *)
Definition ToUpper (s : string) : string :=
  if isASCII s then asciiUpper s else unicode_ToUpper s.
Definition ToLower (s : string) : string :=
  if isASCII s then asciiLower s else unicode_ToLower s.

(** [regexp.MustCompile(`^(\d+(?:\.\d+)?)`)]. *)
Definition powerRe : regexp :=
  Cat Bol (Group 1 (Cat (Plus isDigit) (Opt (Cat (Chr ".") (Plus isDigit))))).

Definition normalizePower (powerStr : string) : string :=
  if (powerStr =? "")%string then powerStr
  else
    let powerStr := TrimSpace (ToLower powerStr) in
    match FindStringSubmatch powerRe 1 powerStr with
    | _ :: m1 :: _ =>
        match ParseFloat m1 with
        | None => powerStr
        | Some value =>
            let value :=
              if Contains powerStr "kw" then mul value (const 1000 0)
              else if Contains powerStr "mw" then mul value (const 1 3)
              else value in
            if eqb value (Floor value) then Sprintf_f 0 value
            else Sprintf_f 3 value
        end
    | _ => powerStr
    end.

(** The table of [calculateBand]: name, lower and upper bound in MHz,
    each bound the float64 of its decimal literal. *)
Definition bandMap : list (string * float64 * float64) :=
  [ ("160M", const 1800 3, const 2000 3);
    ("80M", const 3500 3, const 4000 3);
    ("60M", const 5330 3, const 5400 3);
    ("40M", const 7000 3, const 7300 3);
    ("30M", const 10100 3, const 10150 3);
    ("20M", const 14000 3, const 14350 3);
    ("17M", const 18068 3, const 18168 3);
    ("15M", const 21000 3, const 21450 3);
    ("12M", const 24890 3, const 24990 3);
    ("10M", const 28000 3, const 29700 3);
    ("6M", const 50000 3, const 54000 3);
    ("2M", const 144000 3, const 148000 3);
    ("1.25M", const 222000 3, const 225000 3);
    ("70CM", const 420000 3, const 450000 3);
    ("33CM", const 902000 3, const 928000 3);
    ("23CM", const 1240000 3, const 1300000 3) ].

(** [freq >= band.lower && freq <= band.upper]. *)
Definition inBand (freq : float64) (band : string * float64 * float64) : bool :=
  geb freq (snd (fst band)) && leb freq (snd band).

(** The [for _, band := range bandMap] loop and the final [return ""]. *)
Fixpoint scanBands (freq : float64) (bands : list (string * float64 * float64)) : string :=
  match bands with
  | [] => EmptyString
  | band :: bands' =>
      if inBand freq band then fst (fst band) else scanBands freq bands'
  end.

Definition calculateBand (freqStr : string) : string :=
  match ParseFloat freqStr with
  | None => EmptyString
  | Some freq => scanBands freq bandMap
  end.

Definition normalizeQSO (qso : QSO) : QSO :=
  let qso := set POWER (normalizePower (qso POWER)) qso in
  if negb (qso FREQ =? "")%string
  then set BAND (calculateBand (qso FREQ)) qso
  else qso.

(* ================================================================ *)
(** * The parsers *)

(** Lines 37 to 87 of [parseXMLMessage]: from the decoded element to
    the record. *)
Definition contactInfoToQSO (contactInfo : WSJTContactInfo) : result QSO :=
  match Time.Parse (Timestamp contactInfo) with
  | None => Err TimestampParsingFailed
  | Some timestamp =>
      let mode := Mode contactInfo in
      let mode := if (mode =? "USB")%string || (mode =? "LSB")%string
                  then "SSB" else mode in
      match ParseFloat (TxFreq contactInfo) with
      | None => Err TXFrequencyParsingFailed
      | Some txFreq =>
          let freqMHz := div txFreq (const 100000 0) in
          match ParseFloat (RxFreq contactInfo) with
          | None => Err RXFrequencyParsingFailed
          | Some rxFreq =>
              let freqRXMHz := div rxFreq (const 100000 0) in
              Ok (literal
                    [ (CALL, Call contactInfo);
                      (MODE, mode);
                      (QSO_DATE_OFF, Time.Format_20060102 timestamp);
                      (QSO_DATE, Time.Format_20060102 timestamp);
                      (TIME_OFF, Time.Format_150405 timestamp);
                      (TIME_ON, Time.Format_150405 timestamp);
                      (RST_RCVD, Rcv contactInfo);
                      (RST_SENT, Snt contactInfo);
                      (FREQ, Sprintf_f 6 freqMHz);
                      (FREQ_RX, Sprintf_f 6 freqRXMHz);
                      (OPERATOR, Operator contactInfo);
                      (COMMENT, Comment contactInfo);
                      (POWER, Power contactInfo);
                      (STX, Sntnr contactInfo);
                      (RTX, Rcvnr contactInfo);
                      (MYCALL, MyCall contactInfo);
                      (GRIDSQUARE, Gridsquare contactInfo);
                      (STATION_CALLSIGN, MyCall contactInfo) ])
          end
      end
  end.

Definition parseXMLMessage (message : string) : result QSO :=
  match xml_Unmarshal message with
  | None => Err XMLParsingFailed
  | Some contactInfo => contactInfoToQSO contactInfo
  end.

(** [regexp.MustCompile(`<([a-zA-Z_]+):(\d+)>`)]. *)
Definition isFieldChar (c : ascii) : bool :=
  isLower c || isUpper c || Ascii.eqb c "_".

Definition adifRe : regexp :=
  Cat (Chr "<") (Cat (Group 1 (Plus isFieldChar))
    (Cat (Chr ":") (Cat (Group 2 (Plus isDigit)) (Chr ">")))).

(** The [switch strings.ToUpper(field)] of [parseADIFMessage]: each
    case label with the record fields its body assigns [data] to. *)
Definition adifCases : list (string * list Field) :=
  [ ("CALL", [CALL]); ("MODE", [MODE]);
    ("QSO_DATE_OFF", [QSO_DATE_OFF; QSO_DATE]); ("QSO_DATE", [QSO_DATE]);
    ("TIME_OFF", [TIME_OFF; TIME_ON]); ("TIME_ON", [TIME_ON]);
    ("RST_RCVD", [RST_RCVD]); ("RST_SENT", [RST_SENT]);
    ("FREQ", [FREQ]); ("FREQ_RX", [FREQ_RX]);
    ("OPERATOR", [OPERATOR]); ("COMMENT", [COMMENT]);
    ("TX_PWR", [POWER]); ("STX", [STX]); ("SRX", [SRX]);
    ("STX_STRING", [STX_STRING]); ("SRX_STRING", [SRX_STRING]);
    ("RTX", [RTX]); ("CONTEST_ID", [CONTEST_ID]); ("PREFIX", [PREFIX]);
    ("SUBMODE", [SUBMODE]); ("QSLMSG", [QSLMSG]); ("NOTES", [NOTES]);
    ("EMAIL", [EMAIL]); ("DARC_DOK", [DARC_DOK]); ("SOTA_REF", [SOTA_REF]);
    ("WWFF_REF", [WWFF_REF]); ("POTA_REF", [POTA_REF]); ("CNTY", [CNTY]);
    ("REGION", [REGION]); ("LAT", [LAT]); ("LON", [LON]);
    ("ANT_AZ", [ANT_AZ]); ("ANT_EL", [ANT_EL]); ("ANT_PATH", [ANT_PATH]);
    ("A_INDEX", [A_INDEX]); ("K_INDEX", [K_INDEX]); ("SFI", [SFI]);
    ("RX_PWR", [RX_PWR]); ("MY_CALL", [MYCALL; STATION_CALLSIGN]);
    ("MY_GRIDSQUARE", [MY_GRIDSQUARE]); ("NAME", [NAME]); ("QTH", [QTH]);
    ("STATE", [STATE]); ("COUNTRY", [COUNTRY]); ("CQZ", [CQZ]);
    ("ITUZ", [ITUZ]); ("CONT", [CONT]); ("IOTA", [IOTA]); ("DXCC", [DXCC]);
    ("PROP_MODE", [PROP_MODE]); ("SAT_NAME", [SAT_NAME]);
    ("SAT_MODE", [SAT_MODE]); ("GRIDSQUARE", [GRIDSQUARE]);
    ("STATION_CALLSIGN", [STATION_CALLSIGN]) ].

(** The fields of the case that [label] selects; none without a case. *)
Fixpoint switchCase (label : string) (cases : list (string * list Field)) : list Field :=
  match cases with
  | [] => []
  | (l, fs) :: cases' => if (label =? l)%string then fs else switchCase label cases'
  end.

Definition assign (label data : string) (qso : QSO) : QSO :=
  fold_left (fun q f => set f data q) (switchCase label adifCases) qso.

(** [s[lo:hi]]: panics unless [0 <= lo <= hi <= len(s)]. *)
Definition slice (s : string) (lo hi : Z) : option string :=
  if (0 <=? lo) && (lo <=? hi) && (hi <=? len s)
  then Some (substring (Z.to_nat lo) (Z.to_nat (hi - lo)) s)
  else None.

(** What one round of the loop over the matches reads (lines 99 to
    124): nothing after a [continue], the field name and its trimmed
    data, or a slice expression out of range. *)
Inductive tagRead : Type :=
| Skip
| Data (field data : string)
| OutOfRange.

Definition readTag (message : string) (match_ : list string) : tagRead :=
  match match_ with
  | m0 :: field :: lengthStr :: _ =>
      let fieldStart := Int.add (Index message m0) (len m0) in
      if fieldStart >=? len message then Skip
      else
        match Atoi lengthStr with
        | None => Skip
        | Some length =>
            let fieldEnd := Int.add fieldStart length in
            let fieldEnd := if fieldEnd >? len message then len message else fieldEnd in
            match slice message fieldStart fieldEnd with
            | None => OutOfRange
            | Some raw => Data field (TrimSpace raw)
            end
        end
  | _ => Skip
  end.

(** The body of the loop: the read, then the [switch]; [Ok] is the
    record at the end of the round. *)
Definition adifTag (message : string) (qso : QSO) (match_ : list string) : result QSO :=
  match readTag message match_ with
  | Skip => Ok qso
  | Data field data => Ok (assign (ToUpper field) data qso)
  | OutOfRange => Panic
  end.

Fixpoint adifLoop (message : string) (matches : list (list string)) (qso : QSO) : result QSO :=
  match matches with
  | [] => Ok qso
  | match_ :: matches' =>
      match adifTag message qso match_ with
      | Ok qso' => adifLoop message matches' qso'
      | other => other
      end
  end.

(** The scan of all tags: the record before validation. *)
Definition adifScan (message : string) : result QSO :=
  adifLoop message (FindAllStringSubmatch adifRe 2 message) emptyQSO.

Definition parseADIFMessage (message : string) : result QSO :=
  match adifScan message with
  | Ok qso => if (qso CALL =? "")%string then Err MissingCALL else Ok qso
  | other => other
  end.

(* ================================================================ *)
(** * The serializer *)

(** The [if qso.F != "" { ... }] statements of [generateADIF] in their
    order: the tag name written and the field read. *)
Definition adifOrder : list (string * Field) :=
  [ ("CALL", CALL); ("QSO_DATE", QSO_DATE); ("TIME_ON", TIME_ON);
    ("MODE", MODE); ("RST_RCVD", RST_RCVD); ("RST_SENT", RST_SENT);
    ("FREQ", FREQ); ("FREQ_RX", FREQ_RX); ("BAND", BAND);
    ("TX_PWR", POWER); ("OPERATOR", OPERATOR); ("MY_CALL", MYCALL);
    ("STATION_CALLSIGN", STATION_CALLSIGN); ("GRIDSQUARE", GRIDSQUARE);
    ("COMMENT", COMMENT); ("STX", STX); ("SRX", SRX);
    ("STX_STRING", STX_STRING); ("SRX_STRING", SRX_STRING); ("RTX", RTX);
    ("CONTEST_ID", CONTEST_ID); ("PREFIX", PREFIX);
    ("MY_GRIDSQUARE", MY_GRIDSQUARE); ("NAME", NAME); ("QTH", QTH);
    ("STATE", STATE); ("COUNTRY", COUNTRY); ("CQZ", CQZ); ("ITUZ", ITUZ);
    ("CONT", CONT); ("IOTA", IOTA); ("DXCC", DXCC);
    ("PROP_MODE", PROP_MODE); ("SAT_NAME", SAT_NAME);
    ("SAT_MODE", SAT_MODE); ("SUBMODE", SUBMODE); ("QSLMSG", QSLMSG);
    ("NOTES", NOTES); ("EMAIL", EMAIL); ("DARC_DOK", DARC_DOK);
    ("SOTA_REF", SOTA_REF); ("WWFF_REF", WWFF_REF); ("POTA_REF", POTA_REF);
    ("CNTY", CNTY); ("REGION", REGION); ("LAT", LAT); ("LON", LON);
    ("ANT_AZ", ANT_AZ); ("ANT_EL", ANT_EL); ("ANT_PATH", ANT_PATH);
    ("A_INDEX", A_INDEX); ("K_INDEX", K_INDEX); ("SFI", SFI);
    ("RX_PWR", RX_PWR) ].

(** One statement: what it appends to the builder. *)
Definition writeField (qso : QSO) (tf : string * Field) : string :=
  if (qso (snd tf) =? "")%string then EmptyString
  else Sprintf_tag (fst tf) (qso (snd tf)).

Fixpoint writeFields (qso : QSO) (order : list (string * Field)) : string :=
  match order with
  | [] => EmptyString
  | tf :: order' => writeField qso tf ++ writeFields qso order'
  end.

Definition generateADIF (qso : QSO) : string :=
  "<ADIF_VER:5>5.0<EOH>" ++ nl ++ writeFields qso adifOrder ++ "<EOR>" ++ nl.

(* ================================================================ *)
(** * Dispatch ([main.go]) *)

(** [processSingleQSO] up to the call of the transport: parse,
    normalize, serialize. *)
Definition prepareQSO (message : string) (isXML : bool) : result (QSO * string) :=
  match (if isXML then parseXMLMessage message else parseADIFMessage message) with
  | Ok qso => let qso := normalizeQSO qso in Ok (qso, generateADIF qso)
  | Err e => Err e
  | Panic => Panic
  end.

(** [processSingleQSO]: the boolean it returns, or the panic. *)
Definition processSingleQSO (message : string) (isXML : bool) : result bool :=
  match prepareQSO message isXML with
  | Ok (qso, adifString) => Ok (sendToWaveLog adifString qso)
  | Err _ => Ok false
  | Panic => Panic
  end.

(** The loop of [processMultipleQSOs] over [qsoRecords] from index [i]
    on, [n] being [len(qsoRecords)]: the strings handed to
    [processSingleQSO], in order. *)
Fixpoint batchLoop (n i : Z) (qsoRecords : list string) : list string :=
  match qsoRecords with
  | [] => []
  | qsoRecord :: rest =>
      let qsoRecord := TrimSpace qsoRecord in
      if (qsoRecord =? "")%string then batchLoop n (i + 1) rest
      else (if i <? n - 1 then qsoRecord ++ "<EOR>" else qsoRecord)
           :: batchLoop n (i + 1) rest
  end.

Definition batchRecords (adifPayload : string) : list string :=
  let qsoRecords := Split adifPayload "<EOR>" in
  batchLoop (Z.of_nat (List.length qsoRecords)) 0 qsoRecords.

(** The calls of [processSingleQSO] on the sub-records: the count of
    successes, or the panic of a call. *)
Fixpoint processRecords (records : list string) (processedCount : Z) : result Z :=
  match records with
  | [] => Ok processedCount
  | r :: records' =>
      match processSingleQSO r false with
      | Ok success =>
          processRecords records' (if success then processedCount + 1 else processedCount)
      | Err e => Err e
      | Panic => Panic
      end
  end.

Definition processMultipleQSOs (adifPayload : string) : result Z :=
  processRecords (batchRecords adifPayload) 0.

(** [processMessage]: the number of records sent, or the panic. *)
Definition processMessage (message : string) : result Z :=
  if Contains message "xml" then
    match processSingleQSO message true with
    | Ok success => Ok (if success then 1 else 0)
    | Err e => Err e
    | Panic => Panic
    end
  else if Contains message "<EOR>" then processMultipleQSOs message
  else
    match processSingleQSO message false with
    | Ok success => Ok (if success then 1 else 0)
    | Err e => Err e
    | Panic => Panic
    end.

End Program.

(* ================================================================== *)
(** * Vocabulary of the statements *)

(** An occurrence of [sub] in [s]. *)
Definition Substring (sub s : string) : Prop :=
  exists a b, s = a ++ sub ++ b.

(** The record of a successful parse (the empty record otherwise). *)
Definition recordOf (r : result QSO) : QSO :=
  match r with
  | Ok q => q
  | _ => emptyQSO
  end.

(** An instance of the library for ASCII payloads: the Unicode tables are
    never consulted there; [xml.Unmarshal] decodes every payload to
    [contactInfo] and the transport accepts every record. *)
Definition asciiLibrary (contactInfo : WSJTContactInfo) : GoLibrary :=
  {| unicode_ToUpper := fun s => s;
     unicode_ToLower := fun s => s;
     xml_Unmarshal := fun _ => Some contactInfo;
     sendToWaveLog := fun _ _ => true |}.

Definition noContactInfo : WSJTContactInfo :=
  mkContactInfo "" "" "" "" "" "" "" "" "" "" "" "" "" "".

(** A decimal rendering with exactly [p] digits after the point. *)
Definition hasDecimals (p : nat) (s : string) : Prop :=
  exists ip fp, s = ip ++ "." ++ fp
                /\ String.length fp = p
                /\ Strings.forallb Strings.isDigit fp = true.

(** The split of a batch as the specification words it: the delimiter
    is put back on every surviving segment except the last surviving
    one. *)
Definition claimedBatch (adifPayload : string) : list string :=
  let survivors :=
    filter (fun s => negb (s =? "")%string)
           (List.map Strings.TrimSpace (Strings.Split adifPayload "<EOR>")) in
  match survivors with
  | [] => []
  | _ => (List.map (fun s => (s ++ "<EOR>")%string) (removelast survivors)
          ++ [last survivors ""])%list
  end.

(** The split of a batch as the code does it: the delimiter is put back
    on every surviving segment that a delimiter followed; the text after
    the last delimiter is passed on as it is if it survives. *)
Definition delimitedBatch (adifPayload : string) : list string :=
  let segments := Strings.Split adifPayload "<EOR>" in
  let tail := Strings.TrimSpace (last segments "") in
  (List.map (fun s => (s ++ "<EOR>")%string)
            (filter (fun s => negb (s =? "")%string)
                    (List.map Strings.TrimSpace (removelast segments)))
   ++ (if (tail =? "")%string then [] else [tail]))%list.

(** The longest prefix of bytes of the class [p], and the rest. *)
Fixpoint span (p : ascii -> bool) (s : string) : string * string :=
  match s with
  | String a s' =>
      if p a then let '(d, r) := span p s' in (String a d, r)
      else (EmptyString, s)
  | EmptyString => (EmptyString, EmptyString)
  end.

(** The leading numeric token of a power string: the longest run of
    digits at its start, with a point and the longest run of digits after
    it when there is at least one. *)
Definition leadingNumber (t : string) : option string :=
  let '(d1, r1) := span Strings.isDigit t in
  match d1 with
  | EmptyString => None
  | _ =>
      match r1 with
      | String a r2 =>
          if Ascii.eqb a "." then
            match fst (span Strings.isDigit r2) with
            | EmptyString => Some d1
            | d2 => Some (d1 ++ "." ++ d2)
            end
          else Some d1
      | EmptyString => Some d1
      end
  end.

(** A match of the power pattern from offset 0 to [e]: its end and its
    one group. *)
Definition found (e : nat) : option (nat * Regexp.captures) :=
  Some (e, [(1, (0, e))])%nat.

(** The value in watts: the unit found anywhere in the string scales
    the number. *)
Definition inWatts (t : string) (value : Float64.float64) : Float64.float64 :=
  if Strings.Contains t "kw" then Float64.mul value (Float64.const 1000 0)
  else if Strings.Contains t "mw" then Float64.mul value (Float64.const 1 3)
  else value.

(** A whole number with no decimal places, any other with three. *)
Definition renderWatts (value : Float64.float64) : string :=
  if Float64.eqb value (Float64.Floor value) then Fmt.Sprintf_f 0 value
  else Fmt.Sprintf_f 3 value.

(** A rendering without a decimal point: digits after an optional sign. *)
Definition noDecimals (s : string) : Prop :=
  exists sign ds, s = sign ++ ds
                  /\ (sign = "" \/ sign = "-")
                  /\ Strings.forallb Strings.isDigit ds = true.

(** What the ADIF parser reads for a tag whose first occurrence in the
    payload ends at offset [start] and is followed by [post]: at most
    [lengthStr] bytes of [post], trimmed. *)
Definition readAfter (start : Z) (field lengthStr post : string) : tagRead :=
  if (post =? "")%string then Skip
  else match Strconv.Atoi lengthStr with
       | None => Skip
       | Some length =>
           if (0 <=? length) && (start + length <=? Int.MaxInt)
           then Data field (Strings.TrimSpace (Strings.take (Z.to_nat length) post))
           else OutOfRange
       end.

(** The tag at the start of a string, as the ADIF pattern matches it: the
    name, the length digits and what follows the closing bracket. *)
Definition tagAt (s : string) : option (string * string * string) :=
  match s with
  | String a s1 =>
      if Ascii.eqb a "<" then
        match fst (span isFieldChar s1), snd (span isFieldChar s1) with
        | String n name, String c r2 =>
            if Ascii.eqb c ":" then
              match fst (span Strings.isDigit r2), snd (span Strings.isDigit r2) with
              | String d ds, String g r4 =>
                  if Ascii.eqb g ">" then Some (String n name, String d ds, r4)
                  else None
              | _, _ => None
              end
            else None
        | _, _ => None
        end
      else None
  | EmptyString => None
  end.

(** The text of a tag. *)
Definition tagText (name digits : string) : string :=
  "<" ++ name ++ ":" ++ digits ++ ">".

(** The end and the two groups of a tag matched at offset [pos]. *)
Definition tagEnd (pos : nat) (name digits : string) : nat :=
  S (S (S pos + String.length name) + String.length digits).

Definition tagCaptures (pos : nat) (name digits : string) : Regexp.captures :=
  [ (2, (S (S pos + String.length name),
         S (S pos + String.length name) + String.length digits));
    (1, (S pos, S pos + String.length name)) ]%nat.

(** The float64 that the digits of a numeric token denote, an infinity
    when they are out of range. *)
Definition tokenValue (token : string) : Float64.float64 :=
  match Strconv.readFloat token with
  | Some n => Strconv.numberValue n
  | None => S754_nan
  end.

(** [normalizePower] as the specification words it: without a leading
    numeric token the trimmed, lower-cased string; with one, always the
    rendering of its value in watts. *)
Definition claimedPower {lib : GoLibrary} (powerStr : string) : string :=
  let t := Strings.TrimSpace (ToLower powerStr) in
  match leadingNumber t with
  | None => t
  | Some token => renderWatts (inWatts t (tokenValue token))
  end.

(** A [contactinfo] element and its decoding. *)
Definition xmlExample : string :=
  "<?xml version='1.0'?><contactinfo><timestamp>2024-01-02T03:04:05</timestamp>"
  ++ "<call>K1ABC</call><mode>USB</mode><txfreq>1407400000</txfreq>"
  ++ "<rxfreq>1407400000</rxfreq></contactinfo>".

Definition xmlExampleInfo : WSJTContactInfo :=
  mkContactInfo "2024-01-02T03:04:05" "K1ABC" "USB" "1407400000" "1407400000"
                "" "" "" "" "" "" "" "" "".

(** A power string whose number is out of the float64 range: [1] and
    309 zeros, in kilowatts. *)
Definition hugePower : string := "1" ++ Fmt.zeros 309 ++ "kw".

(* ================================================================== *)
(** * Facts about the library model *)

Module StringsFacts.
Import Strings.

Lemma append_nil_r (s : string) : s ++ "" = s.
Proof. induction s as [|c s IH]; simpl; [reflexivity | now rewrite IH]. Qed.

Lemma append_assoc (a b c : string) : (a ++ b) ++ c = a ++ (b ++ c).
Proof. induction a as [|x a IH]; simpl; [reflexivity | now rewrite IH]. Qed.

Lemma length_append (a b : string) :
  String.length (a ++ b) = (String.length a + String.length b)%nat.
Proof. induction a as [|x a IH]; simpl; [reflexivity | now rewrite IH]. Qed.

Lemma len_append (a b : string) : len (a ++ b) = len a + len b.
Proof. unfold len. rewrite length_append. lia. Qed.

Lemma len_nonneg (s : string) : 0 <= len s.
Proof. unfold len. lia. Qed.

Lemma prefix_spec (p s : string) :
  prefix p s = true <-> exists r, s = p ++ r.
Proof.
  revert s. induction p as [|c p IH]; intros s.
  - destruct s; simpl; split; intros _; eauto.
  - destruct s as [|d s]; simpl.
    + split; [discriminate | intros [r Hr]; discriminate].
    + destruct (ascii_dec c d) as [->|Hne].
      * rewrite IH. split; intros [r Hr]; exists r; [now rewrite Hr | now injection Hr].
      * split; [discriminate | intros [r Hr]; injection Hr; congruence].
Qed.

Lemma prefix_false (p s : string) :
  prefix p s = false <-> forall r, s <> p ++ r.
Proof.
  split.
  - intros Hf r Hr. assert (prefix p s = true) by (apply prefix_spec; eauto). congruence.
  - intros Hn. destruct (prefix p s) eqn:E; [|reflexivity].
    apply prefix_spec in E. destruct E as [r Hr]. now elim (Hn r).
Qed.

(** [indexFrom] either fails or finds the first occurrence. *)
Lemma indexFrom_spec (sub s : string) (i : Z) :
  (indexFrom sub s i = -1 /\ 0 <= i -> forall a b, s <> a ++ sub ++ b)
  /\ (0 <= i -> indexFrom sub s i = -1 \/ i <= indexFrom sub s i)
  /\ (0 <= i -> i <= indexFrom sub s i ->
      exists a b, s = a ++ sub ++ b /\ indexFrom sub s i = i + len a
                  /\ forall a' b', s = a' ++ sub ++ b' -> len a <= len a').
Proof.
  revert i. induction s as [|c s IH]; intros i.
  - cbn [indexFrom]. destruct (prefix sub "") eqn:E.
    + apply prefix_spec in E. destruct E as [r Hr].
      destruct sub; [|discriminate].
      split; [intros [? ?]; exfalso; lia|]. split; [intros; right; lia|].
      intros _ _. exists "", "". split; [reflexivity|]. split; [unfold len; simpl; lia|].
      intros a' b' _. unfold len. simpl. lia.
    + split.
      * intros _ a b Hab. destruct a; [|discriminate]. simpl in Hab.
        rewrite prefix_false in E. now apply (E b).
      * split; [intros; now left | intros; exfalso; lia].
  - cbn [indexFrom]. destruct (prefix sub (String c s)) eqn:E.
    + apply prefix_spec in E. destruct E as [r Hr].
      split; [intros [? ?]; exfalso; lia|]. split; [intros; right; lia|].
      intros _ _. exists "", r. split; [exact Hr|]. split; [unfold len; simpl; lia|].
      intros a' b' _. unfold len. simpl. lia.
    + destruct (IH (i + 1)) as (H1 & H2 & H3).
      rewrite prefix_false in E.
      split.
      * intros [Hm Hi] a b Hab. destruct a as [|x a].
        -- now apply (E b).
        -- simpl in Hab. injection Hab as _ Hab. revert Hab. apply H1. split; [exact Hm | lia].
      * split.
        -- intros Hi. destruct H2 as [H2|H2]; [lia| now left | right; lia].
        -- intros Hi Hle. destruct H2 as [H2|H2]; [lia | exfalso; lia |].
           destruct (H3 ltac:(lia) H2) as (a & b & Hs & Hidx & Hmin).
           exists (String c a), b. split; [simpl; now rewrite Hs|].
           split; [rewrite Hidx; unfold len; simpl String.length; lia|].
           intros a' b' Hab. destruct a' as [|x a'].
           ++ now elim (E b').
           ++ simpl in Hab. injection Hab as _ Hab. apply Hmin in Hab.
              unfold len in *. simpl String.length. lia.
Qed.

(** [Index] returns [-1] or an offset. *)
Lemma Index_range (s sub : string) : Index s sub = -1 \/ 0 <= Index s sub.
Proof. unfold Index. destruct (indexFrom_spec sub s 0) as (_ & H & _). apply H. lia. Qed.

(** A non-negative [Index] is the offset of the first occurrence. *)
Lemma Index_first (s sub : string) :
  0 <= Index s sub ->
  exists a b, s = a ++ sub ++ b /\ Index s sub = len a
              /\ forall a' b', s = a' ++ sub ++ b' -> len a <= len a'.
Proof.
  unfold Index. intros Hi. destruct (indexFrom_spec sub s 0) as (_ & _ & H).
  destruct (H ltac:(lia) Hi) as (a & b & Hs & Hidx & Hmin).
  exists a, b. repeat split; [exact Hs | lia | exact Hmin].
Qed.

(** [Index] finds every string that occurs. *)
Lemma Index_occurs (s sub a b : string) :
  s = a ++ sub ++ b -> 0 <= Index s sub <= len a.
Proof.
  intros Hs. destruct (Index_range s sub) as [Hm|Hi].
  - exfalso. unfold Index in Hm.
    destruct (indexFrom_spec sub s 0) as (H & _ & _).
    apply (H (conj Hm (Z.le_refl 0)) a b Hs).
  - split; [exact Hi|]. destruct (Index_first s sub Hi) as (a0 & b0 & _ & -> & Hmin).
    now apply (Hmin a b).
Qed.

Lemma Contains_spec (s sub : string) : Contains s sub = true <-> Substring sub s.
Proof.
  unfold Contains, Substring. rewrite Z.leb_le. split.
  - intros Hi. destruct (Index_first s sub Hi) as (a & b & Hs & _). eauto.
  - intros (a & b & Hs). now apply (Index_occurs s sub a b).
Qed.

Lemma Contains_false (s sub : string) : Contains s sub = false <-> ~ Substring sub s.
Proof.
  rewrite <- Contains_spec. destruct (Contains s sub); split; congruence.
Qed.

End StringsFacts.

Module FmtFacts.
Import Strings StringsFacts Fmt.

Lemma forallb_append (p : ascii -> bool) (a b : string) :
  forallb p (a ++ b) = forallb p a && forallb p b.
Proof.
  induction a as [|c a IH]; simpl; [reflexivity|].
  rewrite IH. now rewrite andb_assoc.
Qed.

Lemma fixedWidth_length (w : nat) (z : Z) : String.length (fixedWidth w z) = w.
Proof.
  revert z. induction w as [|w IH]; intros z; cbn [fixedWidth]; [reflexivity|].
  rewrite length_append, IH. cbn [String.length]. lia.
Qed.

Lemma digit_byte (k : nat) : (k <= 9)%nat -> isDigit (byte (48 + k)) = true.
Proof.
  intros Hk. unfold isDigit, inRange, code, byte.
  rewrite nat_ascii_embedding by lia.
  apply andb_true_iff. split; apply Nat.leb_le; lia.
Qed.

Lemma fixedWidth_digits (w : nat) (z : Z) : forallb isDigit (fixedWidth w z) = true.
Proof.
  revert z. induction w as [|w IH]; intros z; cbn [fixedWidth]; [reflexivity|].
  rewrite forallb_append, IH. cbn [forallb andb]. rewrite digit_byte; [reflexivity|].
  assert (0 <= z mod 10 < 10) by (apply Z.mod_pos_bound; lia). lia.
Qed.

Lemma fixedDigits_decimals (p : nat) (r : Z) (sign : string) :
  hasDecimals (S p) (sign ++ fixedDigits (S p) r).
Proof.
  unfold fixedDigits. exists (sign ++ itoa (r / 10 ^ Z.of_nat (S p))), (fixedWidth (S p) (r mod 10 ^ Z.of_nat (S p))).
  split; [now rewrite !append_assoc|].
  split; [apply fixedWidth_length | apply fixedWidth_digits].
Qed.

(** [%.<p>f] of a finite value has exactly [p] decimals ([p > 0]). *)
Lemma Sprintf_f_decimals (p : nat) (x : Float64.float64) :
  Float64.isFinite x = true -> hasDecimals (S p) (Sprintf_f (S p) x).
Proof.
  destruct x as [s|s| |s m e]; try discriminate; intros _; unfold Sprintf_f;
    apply fixedDigits_decimals.
Qed.

End FmtFacts.

Module RegexpFacts.
Import Strings StringsFacts Regexp.

Lemma span_append (p : ascii -> bool) (s : string) :
  s = fst (span p s) ++ snd (span p s).
Proof.
  induction s as [|a s IH]; simpl; [reflexivity|].
  destruct (p a); [|reflexivity].
  destruct (span p s) as [d r]. simpl in *. now rewrite <- IH.
Qed.

Lemma span_empty (p : ascii -> bool) (s : string) :
  fst (span p s) = "" -> snd (span p s) = s.
Proof.
  destruct s as [|a s]; simpl; [reflexivity|].
  destruct (p a); [|reflexivity]. destruct (span p s). discriminate.
Qed.

Lemma run_Plus_unfold (p : ascii -> bool) (s : string) (pos : nat)
  (cs : captures) (k : cont) :
  run (Plus p) s pos cs k
  = match s with
    | String a s' =>
        if p a then
          match run (Plus p) s' (S pos) cs k with
          | Some m => Some m
          | None => k s' (S pos) cs
          end
        else None
    | EmptyString => None
    end.
Proof. destruct s; reflexivity. Qed.

(** Before a continuation that always succeeds, a greedy repetition
    takes the longest run. *)
Lemma run_Plus_greedy (p : ascii -> bool) (cs : captures) (k : cont) :
  (forall s pos, k s pos cs <> None) ->
  forall s pos,
    run (Plus p) s pos cs k
    = match fst (span p s) with
      | EmptyString => None
      | d => k (snd (span p s)) (pos + String.length d)%nat cs
      end.
Proof.
  intros Hk. induction s as [|a s IH]; intros pos; rewrite run_Plus_unfold;
    [reflexivity|].
  cbn [span]. destruct (p a); [|reflexivity].
  rewrite IH. pose proof (span_empty p s) as He.
  destruct (span p s) as [d r]. cbn [fst snd] in *.
  destruct d as [|b d].
  - rewrite (He eq_refl). f_equal. simpl. lia.
  - replace (pos + String.length (String a (String b d)))%nat
      with (S pos + String.length (String b d))%nat by (simpl; lia).
    destruct (k r (S pos + String.length (String b d))%nat cs) eqn:E;
      [reflexivity | now apply Hk in E].
Qed.

(** A success of the matcher is a success of its continuation on a
    suffix, further on in the string. *)
Lemma run_bounds (r : regexp) :
  forall s pos cs k e cs',
    run r s pos cs k = Some (e, cs') ->
    exists s' pos' cs'',
      k s' pos' cs'' = Some (e, cs')
      /\ (pos' + String.length s' = pos + String.length s)%nat
      /\ (pos <= pos')%nat.
Proof.
  induction r as [|c|p|r1 IH1 r2 IH2|r1 IH1|i r1 IH1]; intros s pos cs k e cs'.
  - simpl. destruct (pos =? 0)%nat; [|discriminate]. intros Hk.
    exists s, pos, cs. repeat split; [exact Hk | lia].
  - simpl. destruct s as [|a s]; [discriminate|].
    destruct (Ascii.eqb a c); [|discriminate]. intros Hk.
    exists s, (S pos), cs. repeat split; [exact Hk | simpl; lia | lia].
  - revert pos. induction s as [|a s IHs]; intros pos; rewrite run_Plus_unfold;
      [discriminate|].
    destruct (p a); [|discriminate].
    destruct (run (Plus p) s (S pos) cs k) as [m|] eqn:E.
    + intros [= ->]. destruct (IHs _ E) as (s' & pos' & cs'' & Hk & Hl & Hp).
      exists s', pos', cs''. repeat split; [exact Hk | simpl; lia | lia].
    + intros Hk. exists s, (S pos), cs. repeat split; [exact Hk | simpl; lia | lia].
  - simpl. intros Hr. apply IH1 in Hr. destruct Hr as (s1 & p1 & c1 & Hr & Hl1 & Hp1).
    apply IH2 in Hr. destruct Hr as (s2 & p2 & c2 & Hk & Hl2 & Hp2).
    exists s2, p2, c2. repeat split; [exact Hk | lia | lia].
  - simpl. destruct (run r1 s pos cs k) as [m|] eqn:E.
    + intros [= ->]. now apply IH1 in E.
    + intros Hk. exists s, pos, cs. repeat split; [exact Hk | lia].
  - simpl. intros Hr. apply IH1 in Hr. destruct Hr as (s1 & p1 & c1 & Hk & Hl & Hp).
    exists s1, p1, ((i, (pos, p1)) :: c1). repeat split; [exact Hk | lia | lia].
Qed.

Lemma matchAt_bounds (r : regexp) (s : string) (pos e : nat) (cs : captures) :
  matchAt r s pos = Some (e, cs) ->
  (pos <= e <= pos + String.length s)%nat.
Proof.
  unfold matchAt. intros Hr. apply run_bounds in Hr.
  destruct Hr as (s' & pos' & cs'' & [= <- _] & Hl & Hp). lia.
Qed.

Lemma search_bounds (r : regexp) (s : string) :
  forall pos b e cs,
    search r s pos = Some (b, e, cs) ->
    (pos <= b /\ b <= e /\ e <= pos + String.length s)%nat.
Proof.
  induction s as [|a s IH]; intros pos b e cs; cbn [search];
    destruct (matchAt r _ pos) as [[e' cs']|] eqn:E.
  - intros [= <- <- <-]. apply matchAt_bounds in E. lia.
  - discriminate.
  - intros [= <- <- <-]. apply matchAt_bounds in E. lia.
  - intros Hs. apply IH in Hs. simpl. lia.
Qed.

Lemma drop_length (n : nat) (s : string) :
  String.length (drop n s) = (String.length s - n)%nat.
Proof.
  revert s. induction n as [|n IH]; intros s; [simpl; lia|].
  destruct s as [|a s]; simpl; [reflexivity | apply IH].
Qed.

(** Every match of the loop is a slice of the whole string. *)
Lemma allMatches_slices (r : regexp) (n : nat) (whole : string) (fuel : nat) :
  forall s pos prev m,
    (pos + String.length s = String.length whole)%nat ->
    In m (allMatches fuel r n whole s pos prev) ->
    exists b e cs,
      m = submatch whole n (b, e, cs)
      /\ (b <= e <= String.length whole)%nat.
Proof.
  induction fuel as [|fuel IH]; intros s pos prev m Hl; cbn [allMatches];
    [contradiction|].
  destruct (search r s pos) as [[[b e] cs]|] eqn:E; [|contradiction].
  apply search_bounds in E.
  assert (Hhere : exists b0 e0 cs0,
             submatch whole n (b, e, cs) = submatch whole n (b0, e0, cs0)
             /\ (b0 <= e0 <= String.length whole)%nat)
    by (exists b, e, cs; split; [reflexivity | lia]).
  destruct (e =? pos)%nat eqn:Ee.
  - assert (Hothers : In m match s with
                           | String _ s' => allMatches fuel r n whole s' (S pos) (Some e)
                           | EmptyString => []
                           end ->
                      exists b e cs, m = submatch whole n (b, e, cs)
                                     /\ (b <= e <= String.length whole)%nat).
    { destruct s as [|a s']; [contradiction|]. apply IH. simpl in Hl. lia. }
    destruct (match prev with Some p => negb (b =? p)%nat | None => true end).
    + intros [<-|Hin]; [exact Hhere | now apply Hothers].
    + exact Hothers.
  - intros [<-|Hin]; [exact Hhere|]. revert Hin. apply IH.
    rewrite drop_length. lia.
Qed.

Lemma FindAllStringSubmatch_slices (r : regexp) (n : nat) (s : string) (m : list string) :
  In m (FindAllStringSubmatch r n s) ->
  exists b e cs,
    m = submatch s n (b, e, cs) /\ (b <= e <= String.length s)%nat.
Proof. unfold FindAllStringSubmatch. apply allMatches_slices. reflexivity. Qed.

Lemma take_drop (n : nat) (s : string) : s = take n s ++ drop n s.
Proof.
  revert s. induction n as [|n IH]; intros s; [now destruct s|].
  destruct s as [|a s]; simpl; [reflexivity | now rewrite <- IH].
Qed.

Lemma take_length (n : nat) (s : string) :
  (n <= String.length s)%nat -> String.length (take n s) = n.
Proof.
  revert s. induction n as [|n IH]; intros s Hn; [now destruct s|].
  destruct s as [|a s]; simpl in *; [lia | rewrite IH; lia].
Qed.

Lemma substring_take_drop (n m : nat) (s : string) :
  substring n m s = take m (drop n s).
Proof.
  revert m s. induction n as [|n IH]; intros m s.
  - simpl. revert s. induction m as [|m IHm]; intros s; destruct s as [|a s];
      simpl; try reflexivity. now rewrite IHm.
  - destruct s as [|a s]; simpl; [now destruct m | apply IH].
Qed.

Lemma drop_append (a b : string) : drop (String.length a) (a ++ b) = b.
Proof. induction a as [|x a IH]; simpl; [reflexivity | exact IH]. Qed.

Lemma take_append (a b : string) : take (String.length a) (a ++ b) = a.
Proof. induction a as [|x a IH]; simpl; [now destruct b | now rewrite IH]. Qed.

(** A slice within the bounds is an occurrence at its offset. *)
Lemma substring_occurs (b e : nat) (s : string) :
  (b <= e <= String.length s)%nat ->
  exists a c, s = a ++ substring b (e - b) s ++ c /\ String.length a = b.
Proof.
  intros Hb. exists (take b s), (drop (e - b) (drop b s)). split.
  - rewrite substring_take_drop. rewrite <- take_drop. apply take_drop.
  - apply take_length. lia.
Qed.

End RegexpFacts.

Module IntFacts.
Import Strings StringsFacts RegexpFacts.

Lemma MaxInt_value : Int.MaxInt = 9223372036854775807.
Proof. reflexivity. Qed.

Lemma MinInt_value : Int.MinInt = -9223372036854775808.
Proof. reflexivity. Qed.

Lemma wrap_value (z : Z) :
  Int.wrap z = (z + 9223372036854775808) mod 18446744073709551616 - 9223372036854775808.
Proof. reflexivity. Qed.

(** No wrap-around within the range of [int]. *)
Lemma wrap_small (z : Z) : Int.MinInt <= z <= Int.MaxInt -> Int.wrap z = z.
Proof.
  rewrite MaxInt_value, MinInt_value, wrap_value. intros Hz.
  rewrite Z.mod_small by lia. lia.
Qed.

(** A sum above [MaxInt] wraps to a negative number. *)
Lemma wrap_over (z : Z) :
  Int.MaxInt < z <= 2 * Int.MaxInt -> Int.wrap z < 0.
Proof.
  rewrite MaxInt_value, wrap_value. intros Hz.
  replace (z + 9223372036854775808)
    with ((z - 9223372036854775808) + 1 * 18446744073709551616) by lia.
  rewrite Z_mod_plus_full, Z.mod_small by lia. lia.
Qed.

Lemma Atoi_range (s : string) (v : Z) :
  Strconv.Atoi s = Some v -> Int.MinInt <= v <= Int.MaxInt.
Proof.
  unfold Strconv.Atoi.
  match goal with
  | |- context [let '(_, _) := ?x in _] => destruct x as [neg body]
  end.
  destruct body as [|c body]; [discriminate|].
  destruct (Strconv.readInt _ 0) as [n|]; [|discriminate].
  destruct (andb _ _) eqn:E; [|discriminate]. intros [= <-].
  apply andb_true_iff in E. destruct E as [E1 E2].
  apply Z.leb_le in E1, E2. lia.
Qed.

Lemma take_all (n : nat) (s : string) :
  (String.length s <= n)%nat -> take n s = s.
Proof.
  revert s. induction n as [|n IH]; intros s Hn; destruct s as [|a s];
    simpl in *; try reflexivity; [lia | rewrite IH; [reflexivity | lia]].
Qed.

Lemma len_zero (s : string) : len s = 0 -> s = "".
Proof. destruct s; [reflexivity | unfold len; simpl; lia]. Qed.

End IntFacts.

Module PowerFacts.
Import Strings StringsFacts Regexp RegexpFacts Fmt FmtFacts.

Lemma leadingNumber_prefix (t tok : string) :
  leadingNumber t = Some tok -> exists r, t = tok ++ r.
Proof.
  unfold leadingNumber. pose proof (span_append isDigit t) as Ht.
  destruct (span isDigit t) as [d1 r1]. cbn [fst snd] in Ht.
  destruct d1 as [|c d1]; [discriminate|].
  destruct r1 as [|a r2]; [intros [= <-]; now exists ""|].
  destruct (Ascii.eqb_spec a ".") as [->|Hne]; [|intros [= <-]; eauto].
  pose proof (span_append isDigit r2) as Hr.
  destruct (fst (span isDigit r2)) as [|c2 d2]; [intros [= <-]; eauto|].
  intros [= <-]. exists (snd (span isDigit r2)).
  rewrite Ht. cbn [append]. f_equal. rewrite append_assoc. cbn [append].
  cbn [append] in Hr. now rewrite <- Hr.
Qed.

(** The pattern of [normalizePower] at offset 0 matches the leading
    numeric token. *)
Lemma matchAt_powerRe (t : string) :
  matchAt powerRe t 0
  = match leadingNumber t with
    | Some tok => found (String.length tok)
    | None => None
    end.
Proof.
  unfold matchAt, powerRe, leadingNumber.
  change (run (Cat Bol ?r) t 0 [] ?k) with (run r t 0 [] k).
  set (kG := fun (s' : string) (pos' : nat) (cs' : captures) =>
               Some (pos', (1, (0, pos')) :: cs')%nat).
  set (frac := Opt (Cat (Chr ".") (Plus isDigit))).
  change (run (Group 1 (Cat (Plus isDigit) frac)) t 0 [] _)
    with (run (Plus isDigit) t 0 [] (fun s1 p1 c1 => run frac s1 p1 c1 kG)).
  assert (HkG : forall s pos, kG s pos [] <> None) by (intros; discriminate).
  rewrite run_Plus_greedy.
  2:{ intros s pos. unfold frac.
      change (run (Opt ?r) s pos [] kG)
        with (match run r s pos [] kG with Some m => Some m | None => kG s pos [] end).
      destruct (run _ s pos [] kG); discriminate. }
  destruct (span isDigit t) as [d1 r1]. cbn [fst snd].
  destruct d1 as [|c d1]; [reflexivity|].
  unfold frac.
  change (run (Opt ?r) ?s ?p ?c ?k)
    with (match run r s p c k with Some m => Some m | None => k s p c end).
  change (run (Cat (Chr ".") (Plus isDigit)) r1 ?p [] kG)
    with (match r1 with
          | String a s' => if Ascii.eqb a "." then run (Plus isDigit) s' (S p) [] kG else None
          | EmptyString => None
          end).
  destruct r1 as [|a r2]; [reflexivity|].
  destruct (Ascii.eqb a "."); [|reflexivity].
  rewrite (run_Plus_greedy isDigit [] kG HkG).
  destruct (fst (span isDigit r2)) as [|c2 d2]; [reflexivity|].
  unfold kG, found.
  assert (Hlen : String.length (String c d1 ++ "." ++ String c2 d2)
                 = (S (0 + String.length (String c d1)) + String.length (String c2 d2))%nat).
  { rewrite !length_append. cbn [String.length]. lia. }
  now rewrite Hlen.
Qed.

Lemma search_powerRe_later (s : string) (pos : nat) :
  pos <> 0%nat -> search powerRe s pos = None.
Proof.
  revert pos. induction s as [|a s IH]; intros pos Hpos; cbn [search];
    unfold matchAt, powerRe;
    change (run (Cat Bol ?r) ?s0 pos [] ?k)
      with (if (pos =? 0)%nat then run r s0 pos [] k else None);
    destruct (Nat.eqb_spec pos 0); try contradiction; [reflexivity|].
  apply IH. lia.
Qed.

Lemma FindStringSubmatch_powerRe (t : string) :
  FindStringSubmatch powerRe 1 t
  = match leadingNumber t with
    | Some tok => [tok; tok]
    | None => []
    end.
Proof.
  unfold FindStringSubmatch.
  assert (Hs : search powerRe t 0
               = match matchAt powerRe t 0 with
                 | Some (e, cs) => Some (0%nat, e, cs)
                 | None => None
                 end).
  { destruct t as [|a t]; cbn [search];
      destruct (matchAt powerRe _ 0) as [[e cs]|]; try reflexivity.
    now apply search_powerRe_later. }
  rewrite Hs, matchAt_powerRe.
  destruct (leadingNumber t) as [tok|] eqn:E; [|reflexivity].
  apply leadingNumber_prefix in E. destruct E as [r ->].
  unfold found, submatch. cbn [List.map seq capture Nat.eqb].
  rewrite Nat.sub_0_r, substring_take_drop. cbn [drop].
  now rewrite take_append.
Qed.

Lemma string_of_uint_digits (d : Decimal.uint) :
  forallb isDigit (NilEmpty.string_of_uint d) = true.
Proof. induction d; simpl; try reflexivity; exact IHd. Qed.

Lemma itoa_digits (z : Z) : 0 <= z -> forallb isDigit (itoa z) = true.
Proof.
  intros Hz. unfold itoa. destruct z as [|p|p]; [reflexivity| |lia].
  simpl. pose proof (string_of_uint_digits (Pos.to_uint p)) as Hd.
  destruct (Pos.to_uint p); try exact Hd; reflexivity.
Qed.

Lemma roundHalfEven_nonneg (n d : Z) : 0 <= n -> 0 < d -> 0 <= roundHalfEven n d.
Proof.
  intros Hn Hd. unfold roundHalfEven.
  assert (0 <= n / d) by (apply Z.div_pos; lia).
  destruct (2 * (n mod d) ?= d); [destruct (Z.even (n / d))| |]; lia.
Qed.

(** [%.0f] of a finite value has no decimal point. *)
Lemma Sprintf_f_0_noDecimals (x : Float64.float64) :
  Float64.isFinite x = true -> noDecimals (Sprintf_f 0 x).
Proof.
  destruct x as [s|s| |s m e]; try discriminate; intros _; unfold Sprintf_f, fixedDigits.
  - exists (if s then "-" else ""), (itoa 0). split; [reflexivity|].
    split; [destruct s; auto | reflexivity].
  - eexists (if s then "-" else ""), _. split; [reflexivity|].
    split; [destruct s; auto|]. apply itoa_digits.
    change (10 ^ Z.of_nat 0) with 1.
    destruct (0 <=? e) eqn:Ee.
    + apply Z.leb_le in Ee. assert (0 < 2 ^ e) by (apply Z.pow_pos_nonneg; lia). nia.
    + apply Z.leb_gt in Ee. apply roundHalfEven_nonneg; [lia|].
      apply Z.pow_pos_nonneg; lia.
Qed.

End PowerFacts.

Module AdifReFacts.
Import Strings StringsFacts Regexp RegexpFacts.

Lemma span_head (p : ascii -> bool) (s : string) (b : ascii) (d : string) :
  fst (span p s) = String b d -> exists s', s = String b s' /\ p b = true.
Proof.
  destruct s as [|a s]; simpl; [discriminate|].
  destruct (p a) eqn:Ea; [|discriminate].
  destruct (span p s). simpl. intros [= <- _]. eauto.
Qed.

Lemma span_forallb (p : ascii -> bool) (s : string) :
  forallb p (fst (span p s)) = true.
Proof.
  induction s as [|a s IH]; simpl; [reflexivity|].
  destruct (p a) eqn:Ea; [|reflexivity].
  destruct (span p s). simpl in *. now rewrite Ea.
Qed.

(** Before a continuation that fails on every byte of the class, a
    greedy repetition takes the longest run or fails. *)
Lemma run_Plus_exclusive (p : ascii -> bool) (cs : captures) (k : cont) :
  (forall a s pos, p a = true -> k (String a s) pos cs = None) ->
  forall s pos,
    run (Plus p) s pos cs k
    = match fst (span p s) with
      | EmptyString => None
      | d => k (snd (span p s)) (pos + String.length d)%nat cs
      end.
Proof.
  intros Hk. induction s as [|a s IH]; intros pos; rewrite run_Plus_unfold;
    [reflexivity|].
  cbn [span]. destruct (p a); [|reflexivity].
  rewrite IH. pose proof (span_empty p s) as He. pose proof (span_head p s) as Hh.
  destruct (span p s) as [d r]. cbn [fst snd] in *.
  destruct d as [|b d].
  - rewrite (He eq_refl). f_equal. simpl. lia.
  - replace (pos + String.length (String a (String b d)))%nat
      with (S pos + String.length (String b d))%nat by (simpl; lia).
    destruct (k r (S pos + String.length (String b d))%nat cs) eqn:E; [reflexivity|].
    destruct (Hh b d eq_refl) as (s' & -> & Hb). now apply Hk.
Qed.

Lemma fieldChar_not_colon (a : ascii) : isFieldChar a = true -> Ascii.eqb a ":" = false.
Proof.
  intros Ha. destruct (Ascii.eqb_spec a ":") as [->|]; [|reflexivity].
  vm_compute in Ha. discriminate.
Qed.

Lemma digit_not_bracket (a : ascii) : isDigit a = true -> Ascii.eqb a ">" = false.
Proof.
  intros Ha. destruct (Ascii.eqb_spec a ">") as [->|]; [|reflexivity].
  vm_compute in Ha. discriminate.
Qed.

(** The ADIF pattern matches at an offset exactly when a tag starts
    there. *)
Lemma matchAt_adifRe (s : string) (pos : nat) :
  matchAt adifRe s pos
  = match tagAt s with
    | Some (name, digits, _) => Some (tagEnd pos name digits, tagCaptures pos name digits)
    | None => None
    end.
Proof.
  unfold matchAt, adifRe, tagAt.
  set (kf := fun (_ : string) (e : nat) (cs : captures) => Some (e, cs)).
  set (R3 := Cat (Group 2 (Plus isDigit)) (Chr ">")).
  set (R2 := Cat (Chr ":") R3).
  change (run (Cat (Chr "<") ?r) s pos [] kf)
    with (match s with
          | String a s' => if Ascii.eqb a "<" then run r s' (S pos) [] kf else None
          | EmptyString => None
          end).
  destruct s as [|a s1]; [reflexivity|].
  destruct (Ascii.eqb a "<"); [|reflexivity].
  set (K1 := fun (s' : string) (p' : nat) (c' : captures) =>
               run R2 s' p' ((1, (S pos, p')) :: c')%nat kf).
  change (run (Cat (Group 1 (Plus isFieldChar)) R2) s1 (S pos) [] kf)
    with (run (Plus isFieldChar) s1 (S pos) [] K1).
  rewrite run_Plus_exclusive.
  2:{ intros c s' p' Hc. unfold K1, R2.
      change (run (Cat (Chr ":") R3) (String c s') p' ?cs kf)
        with (if Ascii.eqb c ":" then run R3 s' (S p') cs kf else None).
      now rewrite fieldChar_not_colon. }
  destruct (span isFieldChar s1) as [name r1]. cbn [fst snd].
  destruct name as [|n name]; [reflexivity|].
  unfold K1, R2.
  change (run (Cat (Chr ":") R3) r1 ?p ?cs kf)
    with (match r1 with
          | String c s' => if Ascii.eqb c ":" then run R3 s' (S p) cs kf else None
          | EmptyString => None
          end).
  destruct r1 as [|c r2]; [reflexivity|].
  destruct (Ascii.eqb c ":"); [|reflexivity].
  set (p1 := (S pos + String.length (String n name))%nat).
  set (c1 := [(1, (S pos, p1))]%nat).
  set (K2 := fun (s' : string) (p' : nat) (c' : captures) =>
               run (Chr ">") s' p' ((2, (S p1, p')) :: c')%nat kf).
  change (run R3 r2 (S p1) c1 kf) with (run (Plus isDigit) r2 (S p1) c1 K2).
  rewrite run_Plus_exclusive.
  2:{ intros g s' p' Hg. unfold K2.
      change (run (Chr ">") (String g s') p' ?cs kf)
        with (if Ascii.eqb g ">" then kf s' (S p') cs else None).
      now rewrite digit_not_bracket. }
  destruct (span isDigit r2) as [ds r3]. cbn [fst snd].
  destruct ds as [|d ds]; [reflexivity|].
  unfold K2.
  change (run (Chr ">") r3 ?p ?cs kf)
    with (match r3 with
          | String g s' => if Ascii.eqb g ">" then kf s' (S p) cs else None
          | EmptyString => None
          end).
  destruct r3 as [|g r4]; [reflexivity|].
  destruct (Ascii.eqb g ">"); reflexivity.
Qed.

(** A tag found at the start of a string is its prefix, with a name of
    field characters and a length of digits, both non-empty. *)
Lemma tagAt_spec (s name digits rest : string) :
  tagAt s = Some (name, digits, rest) ->
  s = tagText name digits ++ rest
  /\ forallb isFieldChar name = true /\ name <> ""
  /\ forallb isDigit digits = true /\ digits <> "".
Proof.
  unfold tagAt. destruct s as [|a s1]; [discriminate|].
  destruct (Ascii.eqb_spec a "<") as [->|]; [|discriminate].
  pose proof (span_append isFieldChar s1) as H1.
  pose proof (span_forallb isFieldChar s1) as F1.
  destruct (span isFieldChar s1) as [nm r1]. cbn [fst snd] in *.
  destruct nm as [|n nm]; [discriminate|].
  destruct r1 as [|c r2]; [discriminate|].
  destruct (Ascii.eqb_spec c ":") as [->|]; [|discriminate].
  pose proof (span_append isDigit r2) as H2.
  pose proof (span_forallb isDigit r2) as F2.
  destruct (span isDigit r2) as [dg r3]. cbn [fst snd] in *.
  destruct dg as [|d dg]; [discriminate|].
  destruct r3 as [|g r4]; [discriminate|].
  destruct (Ascii.eqb_spec g ">") as [->|]; [|discriminate].
  intros [= <- <- <-]. repeat split; try assumption; try discriminate.
  unfold tagText. rewrite H1, H2. cbn [append]. f_equal.
  rewrite !append_assoc. cbn [append]. f_equal. f_equal.
  rewrite !append_assoc. reflexivity.
Qed.

End AdifReFacts.

Module MatchFacts.
Import Strings StringsFacts Regexp RegexpFacts IntFacts AdifReFacts.

Lemma drop_drop (n m : nat) (s : string) : drop n (drop m s) = drop (m + n) s.
Proof.
  revert s. induction m as [|m IH]; intros s; [reflexivity|].
  destruct s as [|a s]; simpl; [now destruct n | apply IH].
Qed.

Lemma drop_next (n : nat) (s : string) (a : ascii) (s' : string) :
  drop n s = String a s' -> drop (S n) s = s'.
Proof.
  intros Hd. replace (S n) with (n + 1)%nat by lia.
  rewrite <- drop_drop, Hd. reflexivity.
Qed.

(** The match that the search reports is a match at its offset. *)
Lemma search_matchAt (r : regexp) (s : string) :
  forall pos b e cs,
    search r s pos = Some (b, e, cs) ->
    (pos <= b)%nat /\ matchAt r (drop (b - pos) s) b = Some (e, cs).
Proof.
  induction s as [|a s IH]; intros pos b e cs; cbn [search];
    destruct (matchAt r _ pos) as [[e' cs']|] eqn:E.
  - intros [= <- <- <-]. rewrite Nat.sub_diag. split; [lia | exact E].
  - discriminate.
  - intros [= <- <- <-]. rewrite Nat.sub_diag. split; [lia | exact E].
  - intros Hs. apply IH in Hs. destruct Hs as [Hb Hm]. split; [lia|].
    replace (b - pos)%nat with (S (b - S pos)) by lia. exact Hm.
Qed.

(** Every match of the loop is a match of the pattern at its offset in
    the whole string. *)
Lemma allMatches_matchAt (r : regexp) (n : nat) (whole : string) (fuel : nat) :
  forall s pos prev m,
    drop pos whole = s ->
    In m (allMatches fuel r n whole s pos prev) ->
    exists b e cs,
      m = submatch whole n (b, e, cs)
      /\ matchAt r (drop b whole) b = Some (e, cs).
Proof.
  induction fuel as [|fuel IH]; intros s pos prev m Hs; cbn [allMatches];
    [contradiction|].
  destruct (search r s pos) as [[[b e] cs]|] eqn:E; [|contradiction].
  pose proof (search_bounds r s pos b e cs E) as Hb.
  apply search_matchAt in E. destruct E as [_ Hm].
  rewrite <- Hs, drop_drop in Hm. replace (pos + (b - pos))%nat with b in Hm by lia.
  assert (Hhere : exists b0 e0 cs0,
             submatch whole n (b, e, cs) = submatch whole n (b0, e0, cs0)
             /\ matchAt r (drop b0 whole) b0 = Some (e0, cs0))
    by (exists b, e, cs; split; [reflexivity | exact Hm]).
  destruct (e =? pos)%nat.
  - assert (Hothers : In m match s with
                           | String _ s' => allMatches fuel r n whole s' (S pos) (Some e)
                           | EmptyString => []
                           end ->
                      exists b e cs, m = submatch whole n (b, e, cs)
                                     /\ matchAt r (drop b whole) b = Some (e, cs)).
    { destruct s as [|a s']; [contradiction|]. apply IH. now apply drop_next with a. }
    destruct (match prev with Some p => negb (b =? p)%nat | None => true end).
    + intros [<-|Hin]; [exact Hhere | now apply Hothers].
    + exact Hothers.
  - intros [<-|Hin]; [exact Hhere|]. revert Hin. apply IH.
    rewrite <- Hs, drop_drop. f_equal. lia.
Qed.

(** The matches of the ADIF pattern are the text of a tag, its name and
    its length digits. *)
Lemma adifRe_matches (message : string) (m : list string) :
  In m (FindAllStringSubmatch adifRe 2 message) ->
  exists name digits,
    m = [tagText name digits; name; digits]
    /\ forallb isFieldChar name = true /\ name <> ""
    /\ forallb isDigit digits = true /\ digits <> "".
Proof.
  unfold FindAllStringSubmatch. intros Hin.
  apply allMatches_matchAt in Hin; [|reflexivity].
  destruct Hin as (b & e & cs & -> & Hm). rewrite matchAt_adifRe in Hm.
  destruct (tagAt (drop b message)) as [[[name digits] rest]|] eqn:Et; [|discriminate].
  injection Hm as <- <-. apply tagAt_spec in Et.
  destruct Et as (Hd & Hn & Hn' & Hg & Hg').
  exists name, digits. split; [|now repeat split].
  unfold submatch, tagCaptures, tagEnd. cbn [List.map seq capture Nat.eqb].
  rewrite !substring_take_drop.
  assert (H1 : drop (S b) message = name ++ ":" ++ digits ++ ">" ++ rest).
  { apply drop_next with "<"%char. rewrite Hd. unfold tagText.
    cbn [append]. f_equal. rewrite !append_assoc. cbn [append].
    do 2 f_equal. now rewrite !append_assoc. }
  assert (H2 : drop (S (S b + String.length name)) message = digits ++ ">" ++ rest).
  { replace (S (S b + String.length name)) with (S b + (String.length name + 1))%nat by lia.
    rewrite <- drop_drop, H1. rewrite <- (drop_drop 1 (String.length name)).
    now rewrite drop_append. }
  f_equal; [|f_equal; [|f_equal]].
  - rewrite Hd.
    replace (S (S (S b + String.length name) + String.length digits) - b)%nat
      with (String.length (tagText name digits)).
    + apply take_append.
    + unfold tagText. cbn [append String.length]. rewrite !length_append.
      cbn [append String.length]. rewrite !length_append. cbn [String.length]. lia.
  - rewrite H1. replace (S b + String.length name - S b)%nat with (String.length name) by lia.
    apply take_append.
  - rewrite H2.
    replace (S (S b + String.length name) + String.length digits
             - S (S b + String.length name))%nat with (String.length digits) by lia.
    apply take_append.
Qed.

Lemma readInt_nonneg (s : string) :
  forall acc n, 0 <= acc -> Strconv.readInt s acc = Some n -> 0 <= n.
Proof.
  induction s as [|c s IH]; intros acc n Hacc; simpl; [intros [= <-]; exact Hacc|].
  destruct (isDigit c); [|discriminate]. apply IH.
  unfold Strconv.digitVal. lia.
Qed.

Lemma digit_not_sign (c : ascii) :
  isDigit c = true -> Ascii.eqb c "+" = false /\ Ascii.eqb c "-" = false.
Proof.
  intros Hc. split.
  - destruct (Ascii.eqb_spec c "+") as [->|]; [vm_compute in Hc; discriminate | reflexivity].
  - destruct (Ascii.eqb_spec c "-") as [->|]; [vm_compute in Hc; discriminate | reflexivity].
Qed.

(** The length digits of a tag denote no negative number. *)
Lemma Atoi_digits (digits : string) (n : Z) :
  forallb isDigit digits = true -> Strconv.Atoi digits = Some n -> 0 <= n.
Proof.
  intros Hd. unfold Strconv.Atoi. destruct digits as [|c ds]; [discriminate|].
  simpl in Hd. apply andb_true_iff in Hd. destruct Hd as [Hc _].
  destruct (digit_not_sign c Hc) as [-> ->].
  destruct (Strconv.readInt (String c ds) 0) as [k|] eqn:Er; [|discriminate].
  apply readInt_nonneg in Er; [|lia].
  destruct (andb _ _); [|discriminate]. now intros [= <-].
Qed.

Lemma forallb_isASCII (p : ascii -> bool) (s : string) :
  (forall c, p c = true -> isASCIIByte c = true) ->
  forallb p s = true -> isASCII s = true.
Proof.
  intros Hp. unfold isASCII. induction s as [|c s IH]; simpl; [reflexivity|].
  intros Hs. apply andb_true_iff in Hs. destruct Hs as [Hc Hs].
  now rewrite (Hp c Hc), IH.
Qed.

Lemma fieldChar_ASCII (c : ascii) : isFieldChar c = true -> isASCIIByte c = true.
Proof.
  unfold isFieldChar, isLower, isUpper, inRange, isASCIIByte. intros Hc.
  apply Nat.ltb_lt.
  apply orb_true_iff in Hc. destruct Hc as [Hc|Hc].
  - apply orb_true_iff in Hc. destruct Hc as [Hc|Hc];
      apply andb_true_iff in Hc; destruct Hc as [_ Hc]; apply Nat.leb_le in Hc; lia.
  - apply Ascii.eqb_eq in Hc. subst c. vm_compute. lia.
Qed.

End MatchFacts.

(* ================================================================== *)
(** * Facts about the record, the parsers and the serializer *)

Section ProgramFacts.
Context {lib : GoLibrary}.
Import Strings StringsFacts Fmt FmtFacts Regexp RegexpFacts IntFacts PowerFacts.
Import AdifReFacts MatchFacts.

Lemma Field_beq_eq (f g : Field) : Field_beq f g = true <-> f = g.
Proof.
  split; [apply internal_Field_dec_bl | apply internal_Field_dec_lb].
Qed.

Lemma set_same (f : Field) (v : string) (q : QSO) : set f v q f = v.
Proof. unfold set. now rewrite (proj2 (Field_beq_eq f f) eq_refl). Qed.

Lemma set_other (f g : Field) (v : string) (q : QSO) :
  g <> f -> set f v q g = q g.
Proof.
  intros Hne. unfold set. destruct (Field_beq g f) eqn:E; [|reflexivity].
  apply Field_beq_eq in E. contradiction.
Qed.

(** Assigning [data] to the fields [fs] one after the other. *)
Lemma assignAll_value (fs : list Field) (data : string) (q : QSO) (f : Field) :
  fold_left (fun q f => set f data q) fs q f
  = if existsb (Field_beq f) fs then data else q f.
Proof.
  revert q. induction fs as [|g fs IH]; intros q; simpl; [reflexivity|].
  rewrite IH. unfold set.
  destruct (Field_beq f g), (existsb (Field_beq f) fs); reflexivity.
Qed.

Lemma assignAll_in (fs : list Field) (data : string) (q : QSO) (f : Field) :
  In f fs -> fold_left (fun q f => set f data q) fs q f = data.
Proof.
  intros Hin. rewrite assignAll_value.
  replace (existsb (Field_beq f) fs) with true; [reflexivity|].
  symmetry. apply existsb_exists. exists f. split; [exact Hin|].
  now apply Field_beq_eq.
Qed.

Lemma assignAll_notin (fs : list Field) (data : string) (q : QSO) (f : Field) :
  ~ In f fs -> fold_left (fun q f => set f data q) fs q f = q f.
Proof.
  intros Hnotin. rewrite assignAll_value.
  destruct (existsb (Field_beq f) fs) eqn:E; [|reflexivity].
  apply existsb_exists in E. destruct E as (g & Hin & Hg).
  apply Field_beq_eq in Hg. subst g. contradiction.
Qed.

(** A field keeps its value or takes [data], by the case selected. *)
Lemma assign_in (label data : string) (q : QSO) (f : Field) :
  In f (switchCase label adifCases) -> assign label data q f = data.
Proof. apply assignAll_in. Qed.

Lemma assign_notin (label data : string) (q : QSO) (f : Field) :
  ~ In f (switchCase label adifCases) -> assign label data q f = q f.
Proof. apply assignAll_notin. Qed.

(** The case selected by a label is a case of the table. *)
Lemma switchCase_case (label : string) (cases : list (string * list Field)) (f : Field) :
  In f (switchCase label cases) -> exists fs, In (label, fs) cases /\ In f fs.
Proof.
  induction cases as [|[l fs] cases IH]; simpl; [contradiction|].
  destruct (String.eqb_spec label l) as [->|Hne]; intros Hin.
  - exists fs. split; [now left | exact Hin].
  - destruct (IH Hin) as (fs' & Hc & Hf). exists fs'. split; [now right | exact Hf].
Qed.

(** No case of the [switch] assigns [BAND]. *)
Lemma switchCase_no_BAND (label : string) : ~ In BAND (switchCase label adifCases).
Proof.
  intros Hin. apply switchCase_case in Hin. destruct Hin as (fs & Hc & Hf).
  unfold adifCases in Hc. simpl in Hc.
  repeat (destruct Hc as [Hc|Hc];
          [injection Hc as _ <-; simpl in Hf; intuition discriminate|]).
  exact Hc.
Qed.

(** Only the case [MODE] assigns the field [MODE]. *)
Lemma switchCase_MODE (label : string) :
  In MODE (switchCase label adifCases) -> label = "MODE".
Proof.
  intros Hin. apply switchCase_case in Hin. destruct Hin as (fs & Hc & Hf).
  unfold adifCases in Hc. simpl in Hc.
  repeat (destruct Hc as [Hc|Hc];
          [injection Hc as <- <-; simpl in Hf;
           first [reflexivity | exfalso; intuition discriminate]|]).
  contradiction.
Qed.

(** The loop either panics in a round or runs every round; an invariant
    kept by every assignment holds for the record it returns. *)
Lemma adifLoop_invariant (P : QSO -> Prop) (message : string)
  (matches : list (list string)) :
  (forall q m field data,
      In m matches -> readTag message m = Data field data ->
      P q -> P (assign (ToUpper field) data q)) ->
  forall q0 q, P q0 -> adifLoop message matches q0 = Ok q -> P q.
Proof.
  induction matches as [|m ms IH]; intros Hstep q0 q HP; simpl.
  - now intros [= <-].
  - unfold adifTag. destruct (readTag message m) as [|field data|] eqn:Hr;
      try discriminate.
    + apply IH; [|exact HP]. intros q1 m1 f1 d1 Hin. apply Hstep. now right.
    + apply IH.
      * intros q1 m1 f1 d1 Hin. apply Hstep. now right.
      * apply (Hstep q0 m field data); [now left | exact Hr | exact HP].
Qed.

(** The loop never returns an error value. *)
Lemma adifLoop_no_error (message : string) (matches : list (list string))
  (q0 : QSO) (e : parseError) : adifLoop message matches q0 <> Err e.
Proof.
  revert q0. induction matches as [|m ms IH]; intros q0; simpl; [discriminate|].
  unfold adifTag. destruct (readTag message m); [apply IH | apply IH | discriminate].
Qed.

Lemma Substring_here (x b : string) : Substring x (x ++ b).
Proof. exists "", b. reflexivity. Qed.

Lemma Substring_append_l (x a s : string) : Substring x s -> Substring x (a ++ s).
Proof.
  intros (u & v & ->). exists (a ++ u), v. now rewrite append_assoc.
Qed.

Lemma Substring_append_r (x s b : string) : Substring x s -> Substring x (s ++ b).
Proof.
  intros (u & v & ->). exists u, (v ++ b). now rewrite !append_assoc.
Qed.

(** A non-empty field of the order is written as its tag. *)
Lemma writeFields_writes (qso : QSO) (order : list (string * Field))
  (tag : string) (f : Field) :
  In (tag, f) order -> qso f <> "" ->
  Substring (Sprintf_tag tag (qso f)) (writeFields qso order).
Proof.
  intros Hin Hne. induction order as [|tf order IH]; simpl; [contradiction|].
  destruct Hin as [->|Hin].
  - unfold writeField. simpl. destruct (String.eqb_spec (qso f) ""); [contradiction|].
    apply Substring_here.
  - apply Substring_append_l. now apply IH.
Qed.

Lemma generateADIF_writes (qso : QSO) (tag : string) (f : Field) :
  In (tag, f) adifOrder -> qso f <> "" ->
  Substring (Sprintf_tag tag (qso f)) (generateADIF qso).
Proof.
  intros Hin Hne. unfold generateADIF.
  do 2 apply Substring_append_l. apply Substring_append_r.
  now apply writeFields_writes.
Qed.

(** The serializer has a statement for every field but the two
    "off" fields. *)
Lemma adifOrder_fields (f : Field) :
  f <> QSO_DATE_OFF -> f <> TIME_OFF -> exists tag, In (tag, f) adifOrder.
Proof.
  intros H1 H2. destruct f; try contradiction; eexists; unfold adifOrder;
    repeat (first [left; reflexivity | right]).
Qed.

Lemma adifOrder_no_off (tag : string) :
  ~ In (tag, QSO_DATE_OFF) adifOrder /\ ~ In (tag, TIME_OFF) adifOrder.
Proof.
  split; intros Hin; unfold adifOrder in Hin; simpl in Hin;
    repeat (destruct Hin as [Hin|Hin]; [discriminate|]); exact Hin.
Qed.

(** A successful parse is a scan that ran every round and left a
    call sign. *)
Lemma parseADIFMessage_Ok (message : string) (qso : QSO) :
  parseADIFMessage message = Ok qso <->
  adifScan message = Ok qso /\ qso CALL <> "".
Proof.
  unfold parseADIFMessage. destruct (adifScan message) as [q|e|]; split.
  - destruct (String.eqb_spec (q CALL) ""); [discriminate|].
    intros [= <-]. now split.
  - intros [[= <-] Hne]. now destruct (String.eqb_spec (q CALL) "").
  - discriminate.
  - intros [? _]. discriminate.
  - discriminate.
  - intros [? _]. discriminate.
Qed.

(** The parser returns an error exactly when the scan ran every round
    and left no call sign. *)
Lemma parseADIFMessage_Err (message : string) (e : parseError) :
  parseADIFMessage message = Err e <->
  e = MissingCALL /\ exists qso, adifScan message = Ok qso /\ qso CALL = "".
Proof.
  unfold parseADIFMessage, adifScan.
  destruct (adifLoop message _ emptyQSO) as [q|e'|] eqn:E; split.
  - destruct (String.eqb_spec (q CALL) ""); [|discriminate].
    intros [= <-]. split; [reflexivity | now exists q].
  - intros [-> (q' & [= <-] & Hc)]. now rewrite Hc.
  - intros _. now apply adifLoop_no_error in E.
  - intros [_ (q' & ? & _)]. discriminate.
  - discriminate.
  - intros [_ (q' & ? & _)]. discriminate.
Qed.

(** Every non-empty field of the scanned record is the data read for a
    tag of the payload whose case assigns that field. *)
Lemma adifScan_provenance (message : string) (qso : QSO) :
  adifScan message = Ok qso ->
  forall f, qso f <> "" ->
  exists m field,
    In m (FindAllStringSubmatch adifRe 2 message)
    /\ readTag message m = Data field (qso f)
    /\ In f (switchCase (ToUpper field) adifCases).
Proof.
  unfold adifScan.
  apply (adifLoop_invariant
           (fun q => forall f, q f <> "" ->
              exists m field,
                In m (FindAllStringSubmatch adifRe 2 message)
                /\ readTag message m = Data field (q f)
                /\ In f (switchCase (ToUpper field) adifCases))).
  - intros q m field data Hin Hr IH f Hne.
    destruct (in_dec Field_eq_dec f (switchCase (ToUpper field) adifCases)) as [Hf|Hf].
    + rewrite (assign_in _ _ _ _ Hf). exists m, field. now repeat split.
    + rewrite (assign_notin _ _ _ _ Hf) in *. now apply IH.
  - intros f Hne. now elim Hne.
Qed.

(** The scan leaves [BAND] empty. *)
Lemma adifScan_BAND (message : string) (qso : QSO) :
  adifScan message = Ok qso -> qso BAND = "".
Proof.
  unfold adifScan. apply (adifLoop_invariant (fun q => q BAND = "")).
  - intros q m field data _ _ IH. rewrite assign_notin; [exact IH|].
    apply switchCase_no_BAND.
  - reflexivity.
Qed.

Lemma contactInfoToQSO_Ok (contactInfo : WSJTContactInfo) (qso : QSO) :
  contactInfoToQSO contactInfo = Ok qso ->
  exists timestamp txFreq rxFreq,
    Time.Parse (Timestamp contactInfo) = Some timestamp
    /\ Strconv.ParseFloat (TxFreq contactInfo) = Some txFreq
    /\ Strconv.ParseFloat (RxFreq contactInfo) = Some rxFreq
    /\ qso MODE = (if (Mode contactInfo =? "USB")%string
                      || (Mode contactInfo =? "LSB")%string
                   then "SSB" else Mode contactInfo)
    /\ qso FREQ = Sprintf_f 6 (Float64.div txFreq (Float64.const 100000 0))
    /\ qso FREQ_RX = Sprintf_f 6 (Float64.div rxFreq (Float64.const 100000 0))
    /\ qso BAND = ""
    /\ qso CALL = Call contactInfo.
Proof.
  unfold contactInfoToQSO.
  destruct (Time.Parse _) as [t|]; [|discriminate].
  destruct (Strconv.ParseFloat (TxFreq _)) as [tx|]; [|discriminate].
  destruct (Strconv.ParseFloat (RxFreq _)) as [rx|]; [|discriminate].
  intros [= <-]. exists t, tx, rx. repeat split; reflexivity.
Qed.

(** Normalization writes [POWER] and [BAND] only. *)
Lemma normalizeQSO_other (qso : QSO) (f : Field) :
  f <> POWER -> f <> BAND -> normalizeQSO qso f = qso f.
Proof.
  intros HP HB. unfold normalizeQSO.
  destruct (negb _); [rewrite set_other by exact HB|]; now apply set_other.
Qed.

Lemma normalizeQSO_FREQ (qso : QSO) : normalizeQSO qso FREQ = qso FREQ.
Proof. apply normalizeQSO_other; discriminate. Qed.

Lemma normalizeQSO_BAND (qso : QSO) :
  normalizeQSO qso BAND
  = if (qso FREQ =? "")%string then qso BAND else calculateBand (qso FREQ).
Proof.
  unfold normalizeQSO.
  assert (HF : set POWER (normalizePower (qso POWER)) qso FREQ = qso FREQ)
    by (apply set_other; discriminate).
  rewrite HF. destruct (qso FREQ =? "")%string; simpl.
  - apply set_other. discriminate.
  - apply set_same.
Qed.

Lemma scanBands_find (freq : Float64.float64) (bands : list (string * Float64.float64 * Float64.float64)) :
  scanBands freq bands
  = match find (inBand freq) bands with
    | Some band => fst (fst band)
    | None => ""
    end.
Proof.
  induction bands as [|b bands IH]; simpl; [reflexivity|].
  destruct (inBand freq b); [reflexivity | exact IH].
Qed.

Lemma genSplit_nonempty (fuel : nat) (s sep : string) : genSplit fuel s sep <> [].
Proof. destruct fuel; simpl; [discriminate|]. destruct (_ <? 0); discriminate. Qed.

(** The loop over the segments, from any index on. *)
Lemma batchLoop_delimited (n i : Z) (segments : list string) :
  segments <> [] -> n = i + Z.of_nat (List.length segments) ->
  batchLoop n i segments
  = (List.map (fun s => (s ++ "<EOR>")%string)
              (filter (fun s => negb (s =? "")%string)
                      (List.map TrimSpace (removelast segments)))
     ++ (if (TrimSpace (last segments "") =? "")%string then []
         else [TrimSpace (last segments "")]))%list.
Proof.
  revert i. induction segments as [|r rest IH]; intros i Hne Hn; [contradiction|].
  destruct rest as [|r' rest'].
  - simpl in *. replace (i <? n - 1) with false by (symmetry; apply Z.ltb_ge; lia).
    now destruct (TrimSpace r =? "")%string.
  - assert (Hrest : r' :: rest' <> []) by discriminate.
    specialize (IH (i + 1) Hrest ltac:(simpl List.length in *; lia)).
    change (batchLoop n i (r :: r' :: rest')) with
      (let qsoRecord := TrimSpace r in
       if (qsoRecord =? "")%string then batchLoop n (i + 1) (r' :: rest')
       else (if i <? n - 1 then qsoRecord ++ "<EOR>" else qsoRecord)
            :: batchLoop n (i + 1) (r' :: rest')).
    cbv zeta. rewrite IH.
    replace (i <? n - 1) with true
      by (symmetry; apply Z.ltb_lt; simpl List.length in *; lia).
    change (removelast (r :: r' :: rest')) with (r :: removelast (r' :: rest')).
    change (last (r :: r' :: rest') "") with (last (r' :: rest') "").
    simpl List.map at 3. simpl filter.
    now destruct (TrimSpace r =? "")%string.
Qed.

Lemma Sprintf_tag_len (name value : string) :
  Sprintf_tag name value = "<" ++ name ++ ":" ++ itoa (len value) ++ ">" ++ value ++ " ".
Proof. reflexivity. Qed.

(** The read of a tag, by the first occurrence of the tag's text: the
    text at the position where the pattern matched plays no part. *)
Lemma readTag_first_occurrence (message pre m0 post field lengthStr : string)
  (more : list string) :
  len message <= Int.MaxInt ->
  message = pre ++ m0 ++ post ->
  Index message m0 = len pre ->
  readTag message (m0 :: field :: lengthStr :: more)
  = readAfter (len pre + len m0) field lengthStr post.
Proof.
  intros Hmax Hmsg Hidx. unfold readTag, readAfter. rewrite Hidx.
  assert (Hlen : len message = len pre + len m0 + len post)
    by (rewrite Hmsg, !len_append; lia).
  pose proof (len_nonneg pre) as Hp. pose proof (len_nonneg m0) as Hm.
  pose proof (len_nonneg post) as Hq.
  pose proof MaxInt_value as HM. pose proof MinInt_value as Hm'.
  unfold Int.add. rewrite (wrap_small (len pre + len m0)) by lia.
  destruct (String.eqb_spec post "") as [->|Hne].
  - replace (len pre + len m0 >=? len message) with true; [reflexivity|].
    symmetry. rewrite Z.geb_leb. apply Z.leb_le. unfold len in *. simpl in *. lia.
  - assert (0 < len post).
    { destruct (Z.eq_dec (len post) 0) as [E|E]; [now apply len_zero in E | lia]. }
    replace (len pre + len m0 >=? len message) with false
      by (symmetry; rewrite Z.geb_leb; apply Z.leb_gt; lia).
    destruct (Strconv.Atoi lengthStr) as [length|] eqn:Ea; [|reflexivity].
    apply Atoi_range in Ea.
    destruct (andb _ _) eqn:Ec.
    + apply andb_true_iff in Ec. destruct Ec as [E1 E2].
      apply Z.leb_le in E1, E2.
      rewrite (wrap_small (len pre + len m0 + length)) by lia.
      assert (Hdrop : drop (Z.to_nat (len pre + len m0)) message = post).
      { rewrite Hmsg, <- append_assoc.
        replace (Z.to_nat (len pre + len m0)) with (String.length (pre ++ m0))
          by (rewrite length_append; unfold len; lia).
        apply drop_append. }
      unfold slice.
      destruct (len pre + len m0 + length >? len message) eqn:Eg.
      * rewrite Z.gtb_ltb in Eg. apply Z.ltb_lt in Eg.
        replace ((0 <=? len pre + len m0) && (len pre + len m0 <=? len message)
                 && (len message <=? len message)) with true
          by (symmetry; rewrite !andb_true_iff; repeat split; apply Z.leb_le; lia).
        rewrite substring_take_drop, Hdrop. f_equal. f_equal.
        rewrite !take_all; [reflexivity | unfold len in *; lia | unfold len in *; lia].
      * rewrite Z.gtb_ltb in Eg. apply Z.ltb_ge in Eg.
        replace ((0 <=? len pre + len m0)
                 && (len pre + len m0 <=? len pre + len m0 + length)
                 && (len pre + len m0 + length <=? len message)) with true
          by (symmetry; rewrite !andb_true_iff; repeat split; apply Z.leb_le; lia).
        rewrite substring_take_drop, Hdrop. do 3 f_equal. lia.
    + assert (Hneg : Int.wrap (len pre + len m0 + length) < len pre + len m0).
      { apply andb_false_iff in Ec. destruct Ec as [Ec|Ec].
        - apply Z.leb_gt in Ec. rewrite wrap_small by lia. lia.
        - apply Z.leb_gt in Ec.
          assert (Int.wrap (len pre + len m0 + length) < 0); [|lia].
          apply wrap_over. lia. }
      replace (Int.wrap (len pre + len m0 + length) >? len message) with false
        by (symmetry; rewrite Z.gtb_ltb; apply Z.ltb_ge; lia).
      unfold slice.
      replace (len pre + len m0 <=? Int.wrap (len pre + len m0 + length)) with false
        by (symmetry; apply Z.leb_gt; lia).
      now rewrite andb_false_r.
Qed.

(** A tag name is ASCII: [strings.ToUpper] takes its byte-wise path. *)
Lemma ToUpper_fieldName (name : string) :
  forallb isFieldChar name = true -> ToUpper name = asciiUpper name.
Proof.
  intros Hn. unfold ToUpper.
  now rewrite (forallb_isASCII isFieldChar name fieldChar_ASCII Hn).
Qed.

(** The read of a tag found by the pattern, by the first occurrence of
    its text. *)
Lemma readTag_of_match (message : string) (m : list string) :
  len message <= Int.MaxInt ->
  In m (FindAllStringSubmatch adifRe 2 message) ->
  exists m0 field lengthStr pre post,
    m = [m0; field; lengthStr]
    /\ message = pre ++ m0 ++ post
    /\ (forall pre' post', message = pre' ++ m0 ++ post' -> len pre <= len pre')
    /\ readTag message m = readAfter (len pre + len m0) field lengthStr post.
Proof.
  intros Hmax Hin. apply FindAllStringSubmatch_slices in Hin.
  destruct Hin as (b & e & cs & -> & Hb).
  destruct (substring_occurs b e message Hb) as (a & c & Hocc & _).
  set (m0 := substring b (e - b) message) in *.
  pose proof (Index_occurs message m0 a c Hocc) as [Hi _].
  destruct (Index_first message m0 Hi) as (pre & post & Hmsg & Hidx & Hmin).
  unfold submatch. cbn [List.map seq]. fold m0.
  eexists m0, _, _, pre, post.
  split; [reflexivity|]. split; [exact Hmsg|]. split; [exact Hmin|].
  now apply readTag_first_occurrence.
Qed.

(** Away from the overflow of [fieldStart + length], no read of a tag
    is out of range. *)
Lemma readTag_in_range (message : string) (m : list string) :
  len message <= Int.MaxInt ->
  In m (FindAllStringSubmatch adifRe 2 message) ->
  (forall n, Strconv.Atoi (nth 2 m "") = Some n -> len message + n <= Int.MaxInt) ->
  readTag message m <> OutOfRange.
Proof.
  intros Hmax Hin Hn.
  destruct (adifRe_matches message m Hin) as (name & digits & Hm & _ & _ & Hd & _).
  destruct (readTag_of_match message m Hmax Hin)
    as (m0 & field & lengthStr & pre & post & Hm' & Hmsg & _ & ->).
  rewrite Hm in Hm'. injection Hm' as _ _ <-. subst m. cbn [nth] in Hn.
  unfold readAfter. destruct (post =? "")%string; [discriminate|].
  destruct (Strconv.Atoi digits) as [n|] eqn:Ea; [|discriminate].
  pose proof (Atoi_digits digits n Hd Ea) as Hpos.
  specialize (Hn n eq_refl).
  assert (Hlen : len message = len pre + len m0 + len post)
    by (rewrite Hmsg, !len_append; lia).
  pose proof (len_nonneg post).
  replace ((0 <=? n) && (len pre + len m0 + n <=? Int.MaxInt)) with true; [discriminate|].
  symmetry. apply andb_true_iff. split; apply Z.leb_le; lia.
Qed.

(** The loop panics only in a round whose read is out of range. *)
Lemma adifLoop_total (message : string) (matches : list (list string)) :
  (forall m, In m matches -> readTag message m <> OutOfRange) ->
  forall q0, exists q, adifLoop message matches q0 = Ok q.
Proof.
  induction matches as [|m ms IH]; intros Hr q0; simpl; [now exists q0|].
  unfold adifTag. destruct (readTag message m) as [|field data|] eqn:E.
  - apply IH. intros m' Hin. apply Hr. now right.
  - apply IH. intros m' Hin. apply Hr. now right.
  - now elim (Hr m (or_introl eq_refl)).
Qed.

(** Only the case [CALL] assigns the field [CALL]. *)
Lemma switchCase_CALL (label : string) :
  In CALL (switchCase label adifCases) -> label = "CALL".
Proof.
  intros Hin. apply switchCase_case in Hin. destruct Hin as (fs & Hc & Hf).
  unfold adifCases in Hc. simpl in Hc.
  repeat (destruct Hc as [Hc|Hc];
          [injection Hc as <- <-; simpl in Hf;
           first [reflexivity | exfalso; intuition discriminate]|]).
  contradiction.
Qed.

(** Away from the overflow the ADIF parser is total, and it returns its
    error exactly when the scan leaves no call sign; a payload without a
    tag named [CALL] (in any case) gets the error. *)
Lemma parseADIFMessage_without_overflow (message : string) :
  len message <= Int.MaxInt ->
  (forall m n, In m (FindAllStringSubmatch adifRe 2 message) ->
               Strconv.Atoi (nth 2 m "") = Some n -> len message + n <= Int.MaxInt) ->
  (exists qso, adifScan message = Ok qso
               /\ (qso CALL = "" -> parseADIFMessage message = Err MissingCALL)
               /\ (qso CALL <> "" -> parseADIFMessage message = Ok qso))
  /\ ((forall m, In m (FindAllStringSubmatch adifRe 2 message) ->
                 asciiUpper (nth 1 m "") <> "CALL") ->
      parseADIFMessage message = Err MissingCALL).
Proof.
  intros Hmax Hn.
  destruct (adifLoop_total message (FindAllStringSubmatch adifRe 2 message)
              (fun m Hin => readTag_in_range message m Hmax Hin (fun n => Hn m n Hin)) emptyQSO)
    as [qso Hq].
  assert (Hparse : (qso CALL = "" -> parseADIFMessage message = Err MissingCALL)
                   /\ (qso CALL <> "" -> parseADIFMessage message = Ok qso)).
  { unfold parseADIFMessage, adifScan. rewrite Hq.
    destruct (String.eqb_spec (qso CALL) ""); split; intros; congruence. }
  split; [exists qso; split; [exact Hq | exact Hparse]|].
  intros Hnone. apply (proj1 Hparse).
  destruct (string_dec (qso CALL) "") as [|Hne]; [assumption|].
  destruct (adifScan_provenance message qso Hq CALL Hne) as (m & field & Hin & Hr & Hf).
  apply switchCase_CALL in Hf.
  destruct (adifRe_matches message m Hin) as (name & digits & -> & Hname & _).
  unfold readTag in Hr.
  assert (field = name).
  { destruct (_ >=? _); [discriminate|]. destruct (Strconv.Atoi digits); [|discriminate].
    destruct (slice _ _ _); [|discriminate]. now injection Hr as <- _. }
  subst field. rewrite (ToUpper_fieldName name Hname) in Hf.
  now elim (Hnone _ Hin).
Qed.

End ProgramFacts.

(** The ADIF parser does not depend on the library parameters: a tag
    name is ASCII, so the Unicode case table is never consulted. *)
Lemma parseADIFMessage_library_independent (lib1 lib2 : GoLibrary) (message : string) :
  parseADIFMessage (lib := lib1) message = parseADIFMessage (lib := lib2) message.
Proof.
  assert (Hloop : forall matches q0,
             (forall m, In m matches -> In m (Regexp.FindAllStringSubmatch adifRe 2 message)) ->
             adifLoop (lib := lib1) message matches q0
             = adifLoop (lib := lib2) message matches q0).
  { induction matches as [|m ms IH]; intros q0 Hsub; cbn [adifLoop]; [reflexivity|].
    assert (Htag : adifTag (lib := lib1) message q0 m = adifTag (lib := lib2) message q0 m).
    { unfold adifTag. destruct (readTag message m) as [|field data|] eqn:Hr;
        [reflexivity| |reflexivity].
      destruct (MatchFacts.adifRe_matches message m (Hsub m (or_introl eq_refl)))
        as (name & digits & -> & Hname & _).
      assert (field = name).
      { unfold readTag in Hr. destruct (_ >=? _); [discriminate|].
        destruct (Strconv.Atoi digits); [|discriminate].
        destruct (slice _ _ _); [|discriminate]. now injection Hr as <- _. }
      subst field.
      rewrite (ToUpper_fieldName (lib := lib1) name Hname).
      rewrite (ToUpper_fieldName (lib := lib2) name Hname). reflexivity. }
    rewrite Htag. destruct (adifTag (lib := lib2) message q0 m) as [q|e|];
      [|reflexivity|reflexivity].
    apply IH. intros m' Hin. apply Hsub. now right. }
  unfold parseADIFMessage, adifScan. rewrite Hloop; [reflexivity|].
  intros m Hin. exact Hin.
Qed.

(* ================================================================== *)
(** * The claims *)

Section Claims.
Context {lib : GoLibrary}.
Import Strings StringsFacts Fmt FmtFacts Regexp RegexpFacts IntFacts PowerFacts.
Import AdifReFacts MatchFacts.

(** C1 (as amended).  For every ADIF payload that parses successfully,
    every non-empty field of the parsed record other than [QSO_DATE_OFF]
    and [TIME_OFF] is the trimmed data read for a tag of the payload, and
    the output of [generateADIF] contains it verbatim as
    [<TAG:length>value ] under the tag of that field.  (The serializer
    has no statement for [QSO_DATE_OFF] and [TIME_OFF].) *)
Theorem C1_roundtrip_of_serialized_fields (message : string) (qso : QSO) :
  parseADIFMessage message = Ok qso ->
  forall f, f <> QSO_DATE_OFF -> f <> TIME_OFF -> qso f <> "" ->
  (exists tag, In (tag, f) adifOrder
               /\ Substring (Sprintf_tag tag (qso f)) (generateADIF qso))
  /\ (exists m field,
        In m (FindAllStringSubmatch adifRe 2 message)
        /\ readTag message m = Data field (qso f)
        /\ In f (switchCase (ToUpper field) adifCases)).
Proof.
  intros Hp f H1 H2 Hne. apply parseADIFMessage_Ok in Hp. destruct Hp as [Hs _].
  split.
  - destruct (adifOrder_fields f H1 H2) as [tag Hin].
    exists tag. split; [exact Hin | now apply generateADIF_writes].
  - now apply adifScan_provenance.
Qed.

(** C7.  The rewriting of [USB] and [LSB] to [SSB] is done in the XML
    path only: a record parsed from XML has mode [SSB] when the [mode]
    element is [USB] or [LSB] and the element's text otherwise; a record
    parsed from ADIF has as mode the data read for a [MODE] tag, as it
    is, and [<MODE:3>USB] gives mode [USB]. *)
Theorem C7_mode_rewritten_in_XML_only :
  (forall message contactInfo qso,
      xml_Unmarshal message = Some contactInfo ->
      parseXMLMessage message = Ok qso ->
      (Mode contactInfo = "USB" \/ Mode contactInfo = "LSB" -> qso MODE = "SSB")
      /\ (Mode contactInfo <> "USB" -> Mode contactInfo <> "LSB" ->
          qso MODE = Mode contactInfo))
  /\ (forall message qso,
        parseADIFMessage message = Ok qso ->
        qso MODE = ""
        \/ exists m field,
             In m (FindAllStringSubmatch adifRe 2 message)
             /\ ToUpper field = "MODE"
             /\ readTag message m = Data field (qso MODE))
  /\ (exists qso,
        parseADIFMessage "<CALL:5>K1ABC<MODE:3>USB" = Ok qso
        /\ qso MODE = "USB").
Proof.
  split; [|split].
  - intros message ci qso Hx Hp. unfold parseXMLMessage in Hp. rewrite Hx in Hp.
    apply contactInfoToQSO_Ok in Hp.
    destruct Hp as (t & tx & rx & _ & _ & _ & Hm & _). rewrite Hm. split.
    + intros [-> | ->]; reflexivity.
    + intros H1 H2.
      destruct (String.eqb_spec (Mode ci) "USB"); [contradiction|].
      destruct (String.eqb_spec (Mode ci) "LSB"); [contradiction|]. reflexivity.
  - intros message qso Hp. apply parseADIFMessage_Ok in Hp. destruct Hp as [Hs _].
    destruct (string_dec (qso MODE) "") as [He|Hne]; [now left | right].
    destruct (adifScan_provenance message qso Hs MODE Hne) as (m & field & Hin & Hr & Hf).
    exists m, field. repeat split; [exact Hin | now apply switchCase_MODE | exact Hr].
  - eexists. split; [vm_compute; reflexivity | reflexivity].
Qed.

(** C9.  For every record of the parse-then-normalize pipeline, from
    ADIF or from XML: the parser leaves [BAND] empty (no case of the ADIF
    [switch] assigns it, so a [BAND] tag of the input is not read); after
    normalization [BAND] is the band computed from [FREQ] when [FREQ] is
    not empty and is empty when [FREQ] is empty; and normalization
    changes no field other than [POWER] and [BAND]. *)
Theorem C9_band_follows_freq (message : string) (isXML : bool) (qso : QSO) :
  (if isXML then parseXMLMessage message else parseADIFMessage message) = Ok qso ->
  qso BAND = ""
  /\ (forall label, ~ In BAND (switchCase label adifCases))
  /\ (normalizeQSO qso FREQ <> "" ->
      normalizeQSO qso BAND = calculateBand (normalizeQSO qso FREQ))
  /\ (normalizeQSO qso FREQ = "" -> normalizeQSO qso BAND = "")
  /\ (forall f, f <> POWER -> f <> BAND -> normalizeQSO qso f = qso f)
  /\ prepareQSO message isXML = Ok (normalizeQSO qso, generateADIF (normalizeQSO qso)).
Proof.
  intros Hp.
  assert (HB : qso BAND = "").
  { destruct isXML.
    - unfold parseXMLMessage in Hp. destruct (xml_Unmarshal message); [|discriminate].
      apply contactInfoToQSO_Ok in Hp. now destruct Hp as (t & tx & rx & _ & _ & _ & _ & _ & _ & ? & _).
    - apply parseADIFMessage_Ok in Hp. now apply adifScan_BAND with message. }
  split; [exact HB|]. split; [exact switchCase_no_BAND|].
  rewrite normalizeQSO_FREQ, normalizeQSO_BAND.
  split; [|split; [|split]].
  - intros Hne. now destruct (String.eqb_spec (qso FREQ) "").
  - intros ->. exact HB.
  - intros f. apply normalizeQSO_other.
  - unfold prepareQSO. now rewrite Hp.
Qed.

(** C2 (as amended).  For a record parsed from XML, [FREQ] and
    [FREQ_RX] are the [txfreq] and [rxfreq] elements parsed as float64,
    divided by 100000 and formatted with [%.6f], which is exactly six
    decimal places for every finite quotient; [txfreq] "1407400000"
    gives [FREQ] "14074.000000", and it is [txfreq] "1407400" that gives
    "14.074000". *)
Theorem C2_xml_frequency_conversion (message : string)
  (contactInfo : WSJTContactInfo) (qso : QSO) :
  xml_Unmarshal message = Some contactInfo ->
  parseXMLMessage message = Ok qso ->
  exists txFreq rxFreq,
    Strconv.ParseFloat (TxFreq contactInfo) = Some txFreq
    /\ Strconv.ParseFloat (RxFreq contactInfo) = Some rxFreq
    /\ qso FREQ = Sprintf_f 6 (Float64.div txFreq (Float64.const 100000 0))
    /\ qso FREQ_RX = Sprintf_f 6 (Float64.div rxFreq (Float64.const 100000 0))
    /\ (Float64.isFinite (Float64.div txFreq (Float64.const 100000 0)) = true ->
        hasDecimals 6 (qso FREQ))
    /\ (Float64.isFinite (Float64.div rxFreq (Float64.const 100000 0)) = true ->
        hasDecimals 6 (qso FREQ_RX))
    /\ (TxFreq contactInfo = "1407400000" -> qso FREQ = "14074.000000")
    /\ (TxFreq contactInfo = "1407400" -> qso FREQ = "14.074000").
Proof.
  intros Hx Hp. unfold parseXMLMessage in Hp. rewrite Hx in Hp.
  apply contactInfoToQSO_Ok in Hp.
  destruct Hp as (t & tx & rx & _ & Htx & Hrx & _ & Hf & Hfr & _).
  exists tx, rx. rewrite Hf, Hfr.
  split; [exact Htx|]. split; [exact Hrx|].
  split; [reflexivity|]. split; [reflexivity|].
  split; [apply Sprintf_f_decimals|]. split; [apply Sprintf_f_decimals|].
  split.
  - intros E. rewrite E in Htx. vm_compute in Htx. injection Htx as <-.
    vm_compute. reflexivity.
  - intros E. rewrite E in Htx. vm_compute in Htx. injection Htx as <-.
    vm_compute. reflexivity.
Qed.

(** C3 (as amended).  The batch splitter, which handles every payload
    that contains [<EOR>] and not [xml], splits the payload on [<EOR>],
    trims every segment, drops the empty ones and puts the delimiter
    back on every surviving segment that a delimiter followed in the
    payload; only the text after the last delimiter, when it survives,
    is passed on without it.  The payload
    [<CALL:5>K1ABC<EOR><CALL:5>K2DEF<EOR>] gives exactly two
    sub-records, both ending in the delimiter, each parsed on its own
    with its own [CALL]. *)
Theorem C3_batch_split (adifPayload : string) :
  batchRecords adifPayload = delimitedBatch adifPayload
  /\ (Contains adifPayload "xml" = false ->
      Contains adifPayload "<EOR>" = true ->
      processMessage adifPayload = processRecords (batchRecords adifPayload) 0)
  /\ batchRecords "<CALL:5>K1ABC<EOR><CALL:5>K2DEF<EOR>"
     = ["<CALL:5>K1ABC<EOR>"; "<CALL:5>K2DEF<EOR>"]
  /\ (exists q1 q2,
        parseADIFMessage "<CALL:5>K1ABC<EOR>" = Ok q1 /\ q1 CALL = "K1ABC"
        /\ parseADIFMessage "<CALL:5>K2DEF<EOR>" = Ok q2 /\ q2 CALL = "K2DEF").
Proof.
  split; [|split; [|split]].
  - unfold batchRecords, delimitedBatch. apply batchLoop_delimited.
    + apply genSplit_nonempty.
    + lia.
  - intros Hx He. unfold processMessage, processMultipleQSOs. now rewrite Hx, He.
  - vm_compute. reflexivity.
  - exists (recordOf (parseADIFMessage "<CALL:5>K1ABC<EOR>")),
           (recordOf (parseADIFMessage "<CALL:5>K2DEF<EOR>")).
    split; [vm_compute; reflexivity|].
    split; [vm_compute; reflexivity|].
    split; vm_compute; reflexivity.
Qed.

(** C5.  [calculateBand] returns the empty string when the frequency
    string does not parse ([strconv.ParseFloat] fails), otherwise the
    name of the first entry of the band table whose inclusive range
    [lower <= freq <= upper] holds the value, and the empty string when
    there is none; with the five values of the specification, and the
    two bounds of a range and the value next above it. *)
Theorem C5_calculateBand_first_entry (freqStr : string) :
  calculateBand freqStr
  = match Strconv.ParseFloat freqStr with
    | None => ""
    | Some freq =>
        match find (fun band => Float64.geb freq (snd (fst band))
                                && Float64.leb freq (snd band)) bandMap with
        | Some band => fst (fst band)
        | None => ""
        end
    end
  /\ calculateBand "14.074" = "20M"
  /\ calculateBand "7.040" = "40M"
  /\ calculateBand "1.900" = "160M"
  /\ calculateBand "13.000" = ""
  /\ calculateBand "not-a-number" = ""
  /\ calculateBand "14.000" = "20M"
  /\ calculateBand "14.350" = "20M"
  /\ calculateBand "14.351" = "".
Proof.
  split.
  - unfold calculateBand. destruct (Strconv.ParseFloat freqStr); [|reflexivity].
    apply scanBands_find.
  - split; [vm_compute; reflexivity|].
    split; [vm_compute; reflexivity|].
    split; [vm_compute; reflexivity|].
    split; [vm_compute; reflexivity|].
    split; [vm_compute; reflexivity|].
    split; [vm_compute; reflexivity|].
    split; vm_compute; reflexivity.
Qed.

(** C6, at the failing input.  A payload without a [CALL] tag whose tag
    declares the length 9223372036854775807: the parser does not return
    the error for a missing call sign, it panics. *)
Theorem C6_no_CALL_tag_panics :
  parseADIFMessage "<FOO:9223372036854775807>X" = Panic
  /\ forall e, parseADIFMessage "<FOO:9223372036854775807>X" <> Err e.
Proof.
  assert (Hp : parseADIFMessage "<FOO:9223372036854775807>X" = Panic)
    by (vm_compute; reflexivity).
  split; [exact Hp | intros e; rewrite Hp; discriminate].
Qed.

(** C8, at the failing input.  The tag [<CALL:9223372036854775807>]
    followed by one byte: the end of the read, [26 + 9223372036854775807],
    wraps to a negative [int], the clamp to [len(message)] does not
    apply, and the slice expression is out of range: the read panics,
    and with it the parser and the processing of the datagram. *)
Theorem C8_length_overflow_panics :
  Int.add 26 9223372036854775807 = -9223372036854775783
  /\ readTag "<CALL:9223372036854775807>X"
             ["<CALL:9223372036854775807>"; "CALL"; "9223372036854775807"]
     = OutOfRange
  /\ parseADIFMessage "<CALL:9223372036854775807>X" = Panic
  /\ processMessage "<CALL:9223372036854775807>X" = Panic.
Proof.
  split; [vm_compute; reflexivity|].
  split; [vm_compute; reflexivity|].
  split; vm_compute; reflexivity.
Qed.

(** C4 (as amended).  For every input string, with [t] the string
    lower-cased and then trimmed: [normalizePower] returns [t] as it is
    when [t] has no leading numeric token (digits, with a point and
    digits after it at most once), and also when the token is out of the
    float64 range; otherwise it takes the token's value, multiplies it
    by 1000 if "kw" occurs anywhere in [t], else by 0.001 if "mw"
    occurs, and renders a whole number with [%.0f] (no decimal point
    for a finite value) and any other with [%.3f] (exactly three
    decimals); "100" gives "100", "1.5kw" gives "1500", "500mw" gives
    "0.500", "foo" gives "foo" and "" gives "". *)
Theorem C4_normalizePower_characterized (powerStr : string) :
  normalizePower powerStr
  = (let t := TrimSpace (ToLower powerStr) in
     match leadingNumber t with
     | None => t
     | Some token =>
         match Strconv.ParseFloat token with
         | None => t
         | Some value => renderWatts (inWatts t value)
         end
     end)
  /\ (forall value,
        Float64.isFinite value = true ->
        if Float64.eqb value (Float64.Floor value)
        then renderWatts value = Sprintf_f 0 value /\ noDecimals (renderWatts value)
        else renderWatts value = Sprintf_f 3 value /\ hasDecimals 3 (renderWatts value))
  /\ normalizePower "100" = "100"
  /\ normalizePower "1.5kw" = "1500"
  /\ normalizePower "500mw" = "0.500"
  /\ normalizePower "foo" = "foo"
  /\ normalizePower "" = "".
Proof.
  split; [|split].
  - unfold normalizePower. destruct (String.eqb_spec powerStr "") as [->|Hne].
    + reflexivity.
    + cbv zeta. rewrite FindStringSubmatch_powerRe.
      destruct (leadingNumber _) as [token|]; reflexivity.
  - intros value Hfin. unfold renderWatts.
    destruct (Float64.eqb value (Float64.Floor value)).
    + split; [reflexivity | now apply Sprintf_f_0_noDecimals].
    + split; [reflexivity | now apply Sprintf_f_decimals].
  - split; [vm_compute; reflexivity|].
    split; [vm_compute; reflexivity|].
    split; [vm_compute; reflexivity|].
    split; vm_compute; reflexivity.
Qed.

(** C10.  Every tag that the pattern finds in a payload, wherever it
    was found, is read at the first occurrence of its text
    [<NAME:LENGTH>] in the whole payload: the data is what follows that
    first occurrence.  A later occurrence of the same text is read there
    too, so the data after it reaches no field: in
    [<CALL:5>K1ABC<CALL:5>K2DEF] both tags give [K1ABC]. *)
Theorem C10_tags_read_at_first_occurrence (message : string) (m : list string) :
  len message <= Int.MaxInt ->
  In m (FindAllStringSubmatch adifRe 2 message) ->
  (exists name digits pre post,
      m = [tagText name digits; name; digits]
      /\ message = pre ++ tagText name digits ++ post
      /\ (forall pre' post',
            message = pre' ++ tagText name digits ++ post' -> len pre <= len pre')
      /\ readTag message m
         = readAfter (len pre + len (tagText name digits)) name digits post)
  /\ FindAllStringSubmatch adifRe 2 "<CALL:5>K1ABC<CALL:5>K2DEF"
     = [["<CALL:5>"; "CALL"; "5"]; ["<CALL:5>"; "CALL"; "5"]]
  /\ readTag "<CALL:5>K1ABC<CALL:5>K2DEF" ["<CALL:5>"; "CALL"; "5"]
     = Data "CALL" "K1ABC"
  /\ (exists qso, parseADIFMessage "<CALL:5>K1ABC<CALL:5>K2DEF" = Ok qso
                  /\ qso CALL = "K1ABC").
Proof.
  intros Hmax Hin. split.
  - destruct (adifRe_matches message m Hin) as (name & digits & Hm & _).
    destruct (readTag_of_match message m Hmax Hin)
      as (m0 & field & lengthStr & pre & post & Hm' & Hmsg & Hmin & Hread).
    rewrite Hm in Hm'. injection Hm' as <- <- <-.
    exists name, digits, pre, post.
    split; [exact Hm|]. split; [exact Hmsg|]. split; [exact Hmin | exact Hread].
  - split; [vm_compute; reflexivity|].
    split; [vm_compute; reflexivity|].
    exists (recordOf (parseADIFMessage "<CALL:5>K1ABC<CALL:5>K2DEF")).
    split; vm_compute; reflexivity.
Qed.

End Claims.

(* ================================================================== *)
(** * The claims at concrete inputs *)

(** C1 (as stated) fails: the payload below parses, its record holds
    [QSO_DATE_OFF = "20240102"], and that value occurs nowhere in the
    output of [generateADIF] (the later [QSO_DATE] tag took the only
    field that is serialized). *)
Lemma C1_off_fields_not_serialized :
  ~ (forall (L : GoLibrary) (message : string) (qso : QSO),
        parseADIFMessage message = Ok qso ->
        forall f, Substring (qso f) (generateADIF qso)).
Proof.
  intros Hclaim.
  pose (L := asciiLibrary noContactInfo).
  pose (message := "<CALL:5>K1ABC<QSO_DATE_OFF:8>20240102<QSO_DATE:8>20240101").
  specialize (Hclaim L message (recordOf (parseADIFMessage message)) eq_refl QSO_DATE_OFF).
  apply StringsFacts.Contains_spec in Hclaim. vm_compute in Hclaim. discriminate.
Qed.

(** C1 at a payload with a call sign and a frequency: the frequency is
    written as its tag. *)
Lemma C1_roundtrip_witness :
  parseADIFMessage (lib := asciiLibrary noContactInfo) "<call:5>K1ABC <freq:6>14.074"
  = Ok (recordOf (parseADIFMessage (lib := asciiLibrary noContactInfo)
                                   "<call:5>K1ABC <freq:6>14.074"))
  /\ FREQ <> QSO_DATE_OFF /\ FREQ <> TIME_OFF
  /\ recordOf (parseADIFMessage (lib := asciiLibrary noContactInfo)
                                "<call:5>K1ABC <freq:6>14.074") FREQ <> ""
  /\ Substring "<FREQ:6>14.074 "
               (generateADIF (recordOf (parseADIFMessage (lib := asciiLibrary noContactInfo)
                                                         "<call:5>K1ABC <freq:6>14.074"))).
Proof.
  pose (message := "<call:5>K1ABC <freq:6>14.074").
  pose (qso := recordOf (parseADIFMessage (lib := asciiLibrary noContactInfo) message)).
  assert (Hp : parseADIFMessage (lib := asciiLibrary noContactInfo) message = Ok qso)
    by reflexivity.
  assert (H1 : FREQ <> QSO_DATE_OFF) by discriminate.
  assert (H2 : FREQ <> TIME_OFF) by discriminate.
  assert (H3 : qso FREQ <> "") by (vm_compute; discriminate).
  split; [exact Hp|]. split; [exact H1|]. split; [exact H2|]. split; [exact H3|].
  destruct (proj1 (C1_roundtrip_of_serialized_fields (lib := asciiLibrary noContactInfo)
                     message qso Hp FREQ H1 H2 H3)) as (tag & Hin & Hsub).
  unfold adifOrder in Hin. simpl in Hin.
  repeat (destruct Hin as [Hin|Hin]; [try discriminate|]); [|contradiction].
  injection Hin as <-. exact Hsub.
Defined.

(** C9 at the same payload: the parser leaves [BAND] empty and
    normalization computes it from [FREQ]. *)
Lemma C9_band_witness :
  parseADIFMessage (lib := asciiLibrary noContactInfo) "<call:5>K1ABC <freq:6>14.074"
  = Ok (recordOf (parseADIFMessage (lib := asciiLibrary noContactInfo)
                                   "<call:5>K1ABC <freq:6>14.074"))
  /\ recordOf (parseADIFMessage (lib := asciiLibrary noContactInfo)
                                "<call:5>K1ABC <freq:6>14.074") BAND = ""
  /\ normalizeQSO (lib := asciiLibrary noContactInfo)
                  (recordOf (parseADIFMessage (lib := asciiLibrary noContactInfo)
                                              "<call:5>K1ABC <freq:6>14.074")) BAND
     = "20M".
Proof.
  pose (message := "<call:5>K1ABC <freq:6>14.074").
  pose (qso := recordOf (parseADIFMessage (lib := asciiLibrary noContactInfo) message)).
  assert (Hp : parseADIFMessage (lib := asciiLibrary noContactInfo) message = Ok qso)
    by reflexivity.
  split; [exact Hp|].
  destruct (C9_band_follows_freq (lib := asciiLibrary noContactInfo) message false qso Hp)
    as (HB & _ & Hband & _).
  split; [exact HB|].
  change (normalizeQSO (lib := asciiLibrary noContactInfo) qso BAND = "20M").
  rewrite Hband; [vm_compute; reflexivity | vm_compute; discriminate].
Defined.

(** C2 (as stated) fails: for the element with [txfreq] "1407400000" the
    parser produces a record, and its [FREQ] is "14074.000000", not
    "14.074000". *)
Lemma C2_stated_frequency_example_fails :
  xml_Unmarshal (GoLibrary := asciiLibrary xmlExampleInfo) xmlExample = Some xmlExampleInfo
  /\ TxFreq xmlExampleInfo = "1407400000"
  /\ parseXMLMessage (lib := asciiLibrary xmlExampleInfo) xmlExample
     = Ok (recordOf (parseXMLMessage (lib := asciiLibrary xmlExampleInfo) xmlExample))
  /\ recordOf (parseXMLMessage (lib := asciiLibrary xmlExampleInfo) xmlExample) FREQ
     = "14074.000000"
  /\ recordOf (parseXMLMessage (lib := asciiLibrary xmlExampleInfo) xmlExample) FREQ
     <> "14.074000".
Proof.
  split; [reflexivity|]. split; [reflexivity|]. split; [vm_compute; reflexivity|].
  assert (E : recordOf (parseXMLMessage (lib := asciiLibrary xmlExampleInfo) xmlExample) FREQ
              = "14074.000000") by (vm_compute; reflexivity).
  split; [exact E | rewrite E; discriminate].
Qed.

(** C3 (as stated) fails: on the payload of the specification the last
    surviving segment gets the delimiter back as well. *)
Lemma C3_last_survivor_is_delimited :
  batchRecords "<CALL:5>K1ABC<EOR><CALL:5>K2DEF<EOR>"
  = ["<CALL:5>K1ABC<EOR>"; "<CALL:5>K2DEF<EOR>"]
  /\ claimedBatch "<CALL:5>K1ABC<EOR><CALL:5>K2DEF<EOR>"
     = ["<CALL:5>K1ABC<EOR>"; "<CALL:5>K2DEF"]
  /\ batchRecords "<CALL:5>K1ABC<EOR><CALL:5>K2DEF<EOR>"
     <> claimedBatch "<CALL:5>K1ABC<EOR><CALL:5>K2DEF<EOR>".
Proof.
  assert (E1 : batchRecords "<CALL:5>K1ABC<EOR><CALL:5>K2DEF<EOR>"
               = ["<CALL:5>K1ABC<EOR>"; "<CALL:5>K2DEF<EOR>"]) by (vm_compute; reflexivity).
  assert (E2 : claimedBatch "<CALL:5>K1ABC<EOR><CALL:5>K2DEF<EOR>"
               = ["<CALL:5>K1ABC<EOR>"; "<CALL:5>K2DEF"]) by (vm_compute; reflexivity).
  split; [exact E1|]. split; [exact E2|]. rewrite E1, E2. discriminate.
Qed.

(** C3 at the payload of the specification: it goes to the batch
    splitter and both sub-records are sent. *)
Lemma C3_batch_witness :
  Strings.Contains "<CALL:5>K1ABC<EOR><CALL:5>K2DEF<EOR>" "xml" = false
  /\ Strings.Contains "<CALL:5>K1ABC<EOR><CALL:5>K2DEF<EOR>" "<EOR>" = true
  /\ processMessage (lib := asciiLibrary noContactInfo)
                    "<CALL:5>K1ABC<EOR><CALL:5>K2DEF<EOR>" = Ok 2.
Proof.
  assert (Hx : Strings.Contains "<CALL:5>K1ABC<EOR><CALL:5>K2DEF<EOR>" "xml" = false)
    by (vm_compute; reflexivity).
  assert (He : Strings.Contains "<CALL:5>K1ABC<EOR><CALL:5>K2DEF<EOR>" "<EOR>" = true)
    by (vm_compute; reflexivity).
  split; [exact Hx|]. split; [exact He|].
  rewrite (proj1 (proj2 (C3_batch_split (lib := asciiLibrary noContactInfo)
                           "<CALL:5>K1ABC<EOR><CALL:5>K2DEF<EOR>")) Hx He).
  vm_compute. reflexivity.
Defined.

(** C4 (as stated) fails: the power string [hugePower] has a leading
    numeric token and contains "kw", and [normalizePower] returns it as
    it is, where the rendering of its value in watts is "+Inf". *)
Lemma C4_out_of_range_token_is_returned :
  leadingNumber hugePower = Some ("1" ++ Fmt.zeros 309)
  /\ normalizePower (lib := asciiLibrary noContactInfo) hugePower = hugePower
  /\ claimedPower (lib := asciiLibrary noContactInfo) hugePower = "+Inf"
  /\ normalizePower (lib := asciiLibrary noContactInfo) hugePower
     <> claimedPower (lib := asciiLibrary noContactInfo) hugePower.
Proof.
  assert (E1 : normalizePower (lib := asciiLibrary noContactInfo) hugePower = hugePower)
    by (vm_compute; reflexivity).
  assert (E2 : claimedPower (lib := asciiLibrary noContactInfo) hugePower = "+Inf")
    by (vm_compute; reflexivity).
  split; [vm_compute; reflexivity|]. split; [exact E1|]. split; [exact E2|].
  rewrite E1, E2. vm_compute. discriminate.
Qed.

(** C2 at the element [xmlExample]. *)
Lemma C2_xml_frequency_witness :
  xml_Unmarshal (GoLibrary := asciiLibrary xmlExampleInfo) xmlExample = Some xmlExampleInfo
  /\ parseXMLMessage (lib := asciiLibrary xmlExampleInfo) xmlExample
     = Ok (recordOf (parseXMLMessage (lib := asciiLibrary xmlExampleInfo) xmlExample))
  /\ recordOf (parseXMLMessage (lib := asciiLibrary xmlExampleInfo) xmlExample) FREQ
     = "14074.000000".
Proof.
  assert (Hx : xml_Unmarshal (GoLibrary := asciiLibrary xmlExampleInfo) xmlExample
               = Some xmlExampleInfo) by reflexivity.
  assert (Hp : parseXMLMessage (lib := asciiLibrary xmlExampleInfo) xmlExample
               = Ok (recordOf (parseXMLMessage (lib := asciiLibrary xmlExampleInfo) xmlExample)))
    by (vm_compute; reflexivity).
  split; [exact Hx|]. split; [exact Hp|].
  destruct (C2_xml_frequency_conversion (lib := asciiLibrary xmlExampleInfo)
              xmlExample xmlExampleInfo _ Hx Hp)
    as (tx & rx & _ & _ & _ & _ & _ & _ & Hex & _).
  apply Hex. reflexivity.
Defined.

(** C4 at the value 1.5: not whole, so three decimals. *)
Lemma C4_normalizePower_witness :
  Float64.isFinite (Float64.const 1500 3) = true
  /\ renderWatts (Float64.const 1500 3) = Fmt.Sprintf_f 3 (Float64.const 1500 3)
  /\ hasDecimals 3 (renderWatts (Float64.const 1500 3)).
Proof.
  assert (Hf : Float64.isFinite (Float64.const 1500 3) = true) by reflexivity.
  split; [exact Hf|].
  exact (proj1 (proj2 (C4_normalizePower_characterized
                         (lib := asciiLibrary noContactInfo) ""))
               (Float64.const 1500 3) Hf).
Defined.

(** C7 at the element [xmlExample], whose mode is [USB]. *)
Lemma C7_mode_witness :
  xml_Unmarshal (GoLibrary := asciiLibrary xmlExampleInfo) xmlExample = Some xmlExampleInfo
  /\ Mode xmlExampleInfo = "USB"
  /\ recordOf (parseXMLMessage (lib := asciiLibrary xmlExampleInfo) xmlExample) MODE = "SSB".
Proof.
  assert (Hx : xml_Unmarshal (GoLibrary := asciiLibrary xmlExampleInfo) xmlExample
               = Some xmlExampleInfo) by reflexivity.
  assert (Hp : parseXMLMessage (lib := asciiLibrary xmlExampleInfo) xmlExample
               = Ok (recordOf (parseXMLMessage (lib := asciiLibrary xmlExampleInfo) xmlExample)))
    by (vm_compute; reflexivity).
  split; [exact Hx|]. split; [reflexivity|].
  apply (proj1 (C7_mode_rewritten_in_XML_only (lib := asciiLibrary xmlExampleInfo))
               xmlExample xmlExampleInfo _ Hx Hp).
  left. reflexivity.
Defined.

(** C10 at the second [<CALL:5>] of a payload that has two. *)
Lemma C10_first_occurrence_witness :
  Strings.len "<CALL:5>K1ABC<CALL:5>K2DEF" <= Int.MaxInt
  /\ In ["<CALL:5>"; "CALL"; "5"]
        (Regexp.FindAllStringSubmatch adifRe 2 "<CALL:5>K1ABC<CALL:5>K2DEF")
  /\ exists name digits pre post,
       ["<CALL:5>"; "CALL"; "5"] = [tagText name digits; name; digits]
       /\ "<CALL:5>K1ABC<CALL:5>K2DEF" = pre ++ tagText name digits ++ post
       /\ (forall pre' post',
              "<CALL:5>K1ABC<CALL:5>K2DEF" = pre' ++ tagText name digits ++ post' ->
              Strings.len pre <= Strings.len pre')
       /\ readTag "<CALL:5>K1ABC<CALL:5>K2DEF" ["<CALL:5>"; "CALL"; "5"]
          = readAfter (Strings.len pre + Strings.len (tagText name digits))
                      name digits post.
Proof.
  assert (H1 : Strings.len "<CALL:5>K1ABC<CALL:5>K2DEF" <= Int.MaxInt)
    by (vm_compute; discriminate).
  assert (H2 : In ["<CALL:5>"; "CALL"; "5"]
                  (Regexp.FindAllStringSubmatch adifRe 2 "<CALL:5>K1ABC<CALL:5>K2DEF"))
    by (vm_compute; right; left; reflexivity).
  split; [exact H1|]. split; [exact H2|].
  exact (proj1 (C10_tags_read_at_first_occurrence (lib := asciiLibrary noContactInfo)
                  "<CALL:5>K1ABC<CALL:5>K2DEF" ["<CALL:5>"; "CALL"; "5"] H1 H2)).
Defined.
